(** * QueryFlare: the read-only query gate and the charge-then-execute flow

    A shallow embedding of [src/main.ts]: the statement validator
    [validateReadOnlyQuery] with its inner walker [checkNode], and the
    [/query/shared] branch of the [fetch] handler.

    JavaScript values are modelled by [JSValue]; numbers are IEEE 754
    binary64 ([PrimFloat.float]), exactly as in the language.  Strings are
    the UTF-8 bytes of their text; the string operations the code uses
    are comparison with ASCII constants, concatenation, [toLowerCase] and
    iteration by code point.

    The collaborators the code imports (the SQL parser of [sql-parser-cst],
    the ledger's [charge], the storage client) are parameters, and so is
    the room on the engine's call stack, which bounds the recursion of
    the walker. *)

From Stdlib Require Import List String Ascii Bool Floats Arith Lia.
Import ListNotations.
Local Open Scope list_scope.
Local Open Scope string_scope.

Set Implicit Arguments.
Set Warnings "-register-all,-inexact-float,-abstract-large-number".

(** ** JavaScript values *)

(** [JObj] carries the own enumerable properties of an object in the order
    [Object.values] lists them.  A value built by a parser or by
    [JSON.parse] is a finite tree, which is what the inductive type gives. *)
Inductive JSValue : Type :=
| JUndefined
| JNull
| JBool (b : bool)
| JNum (x : float)
| JStr (s : string)
| JArr (elems : list JSValue)
| JObj (props : list (string * JSValue)).

(** Induction on a value with the hypothesis available for every element
    of an array and every property value of an object. *)
Section TreeInduction.
Variable P : JSValue -> Prop.
Hypothesis Hundefined : P JUndefined.
Hypothesis Hnull : P JNull.
Hypothesis Hbool : forall b, P (JBool b).
Hypothesis Hnum : forall x, P (JNum x).
Hypothesis Hstr : forall s, P (JStr s).
Hypothesis Harr : forall elems, Forall P elems -> P (JArr elems).
Hypothesis Hobj :
  forall props, Forall (fun kv => P (snd kv)) props -> P (JObj props).

Fixpoint tree_ind (v : JSValue) : P v :=
  match v with
  | JUndefined => Hundefined
  | JNull => Hnull
  | JBool b => Hbool b
  | JNum x => Hnum x
  | JStr s => Hstr s
  | JArr elems =>
      Harr ((fix all (l : list JSValue) : Forall P l :=
               match l with
               | [] => Forall_nil _
               | e :: l' => Forall_cons e (tree_ind e) (all l')
               end) elems)
  | JObj props =>
      Hobj ((fix all (l : list (string * JSValue))
               : Forall (fun kv => P (snd kv)) l :=
               match l with
               | [] => Forall_nil _
               | kv :: l' => Forall_cons kv (tree_ind (snd kv)) (all l')
               end) props)
  end.
End TreeInduction.

(** Truthiness: [undefined], [null], [false], [0], [-0], [NaN] and the
    empty string are falsy; everything else, arrays and objects included,
    is truthy. *)
Definition truthy (v : JSValue) : bool :=
  match v with
  | JUndefined | JNull => false
  | JBool b => b
  | JNum x => negb (PrimFloat.is_zero x || PrimFloat.is_nan x)
  | JStr s => negb (String.eqb s "")
  | JArr _ | JObj _ => true
  end.

(** Reading an own property of an object literal: the value of the first
    binding of the key, [undefined] when there is none. *)
Fixpoint lookup (k : string) (ps : list (string * JSValue)) : JSValue :=
  match ps with
  | [] => JUndefined
  | (k', v) :: ps' => if String.eqb k k' then v else lookup k ps'
  end.

(** [v === "lit"] for a string literal. *)
Definition strictEqStr (v : JSValue) (lit : string) : bool :=
  match v with
  | JStr s => String.eqb s lit
  | _ => false
  end.

(** An object as a JavaScript engine can hold it: no key twice, at any
    depth. *)
Fixpoint distinctKeys (v : JSValue) : bool :=
  match v with
  | JArr es => forallb distinctKeys es
  | JObj ps =>
      (fix go (ps : list (string * JSValue)) (seen : list string) : bool :=
         match ps with
         | [] => true
         | (k, x) :: ps' =>
             negb (existsb (String.eqb k) seen) && distinctKeys x
             && go ps' (k :: seen)
         end) ps []
  | _ => true
  end.

(** ** Outcomes of code that may throw *)

(** A thrown value is an [Error]; the handlers only read its [message]. *)
Inductive Outcome (A : Type) : Type :=
| Ok (a : A)
| Throw (message : string).
Arguments Throw {A} message.

Definition bindO {A B} (m : Outcome A) (f : A -> Outcome B) : Outcome B :=
  match m with
  | Ok a => f a
  | Throw e => Throw e
  end.

(** ** [String.prototype.toLowerCase]

    On ASCII the method maps [A-Z] to [a-z].  Outside ASCII it changes
    other characters too, but the result is then never one of the names
    the code compares it with: it keeps a character outside ASCII, except
    for the Kelvin sign, which lowers to [k], a letter in none of those
    names.  The lowered name reaches the output only when it is one of
    those names.  Bytes above 127 are left as they are. *)
Definition lowerAscii (c : ascii) : ascii :=
  let n := nat_of_ascii c in
  if Nat.leb 65 n && Nat.leb n 90 then ascii_of_nat (n + 32) else c.

Fixpoint toLowerCase (s : string) : string :=
  match s with
  | EmptyString => EmptyString
  | String c s' => String (lowerAscii c) (toLowerCase s')
  end.

(** ** The validator (main.ts, lines 41-113) *)

Module Validator.

(** The statement kinds of lines 59-66. *)
Definition deniedTypes : list string :=
  [ "insert_stmt"; "update_stmt"; "delete_stmt"; "create_table_stmt";
    "drop_table_stmt"; "alter_table_stmt"; "create_index_stmt";
    "drop_index_stmt" ].

(** [Array.prototype.includes] on an array of strings. *)
Definition includes (l : list string) (s : string) : bool :=
  existsb (String.eqb s) l.

(** The condition of the [if] at lines 58-67: a chain of [===] against
    the eight literals, which only a string can satisfy.  The result is
    the string that [${node.type}] then prints. *)
Definition deniedType (type : JSValue) : option string :=
  match type with
  | JStr t => if includes deniedTypes t then Some t else None
  | _ => None
  end.

(** Lines 76-81. *)
Definition dangerousFunctions : list string :=
  [ "load_extension"; "sqlite_compileoption_used";
    "sqlite_compileoption_get"; "pragma" ].

(** The two variables the walker closes over (lines 51-52). *)
Record Flags : Type := mkFlags {
  hasNonReadOperation : bool;
  errorMessage : string
}.

Definition initFlags : Flags := mkFlags false "".

(** The [TypeError] raised by [node.name.toLowerCase()] when [node.name]
    is truthy and not a string (message as V8 words it). *)
Definition notAFunction : string :=
  "node.name.toLowerCase is not a function".

(** What [checkNode] decides from the node's own properties, before it
    looks at the children (lines 58-88). *)
Inductive Local : Type :=
| Denied (type : string)        (* lines 68-70 *)
| Dangerous (functionName : string)  (* lines 84-86 *)
| Raises (message : string)     (* toLowerCase on a non-string *)
| Descend.                      (* falls through to line 91 *)

Definition inspect (ps : list (string * JSValue)) : Local :=
  let type := lookup "type" ps in
  let name := lookup "name" ps in
  match deniedType type with
  | Some t => Denied t
  | None =>
      if strictEqStr type "function_call" && truthy name then
        match name with
        | JStr s =>
            let functionName := toLowerCase s in
            if includes dangerousFunctions functionName
            then Dangerous functionName
            else Descend
        | _ => Raises notAFunction
        end
      else Descend
  end.

(** [xs.forEach(f)] for a callback that updates the captured flags and
    may throw: left to right, an exception ends the loop. *)
Section ForEach.
Variable A : Type.
Variable f : A -> Flags -> Outcome Flags.

Fixpoint forEach (xs : list A) (st : Flags) : Outcome Flags :=
  match xs with
  | [] => Ok st
  | x :: rest =>
      match f x st with
      | Ok st' => forEach rest st'
      | Throw e => Throw e
      end
  end.
End ForEach.

(** The [RangeError] of an exhausted call stack (message as V8 words
    it). *)
Definition stackOverflow : string := "Maximum call stack size exceeded".

(** [checkNode] (lines 54-98).  The function returns nothing; its effect
    is on the two captured variables, threaded here as [Flags], and it
    may throw.  An array has no [type] property, so for an array only
    the loop of lines 91-97 runs, over its elements.

    The recursion is as deep as the tree, and the engine's call stack is
    not: [stack] is the number of nested calls of [checkNode] the stack
    still holds (the frames of [forEach] and of the callback between two
    calls are counted with the call they lead to).  A call that finds no
    room throws. *)
Fixpoint checkNode (stack : nat) (node : JSValue) (st : Flags) {struct node}
  : Outcome Flags :=
  match stack with
  | 0 => Throw stackOverflow
  | S room =>
      (* the callback of line 91 *)
      let visit (value : JSValue) (st : Flags) : Outcome Flags :=
        match value with
        | JArr items => forEach (checkNode room) items st
        | JObj _ => checkNode room value st
        | _ => Ok st
        end in
      match node with
      | JArr elems => forEach visit elems st
      | JObj props =>
          match inspect props with
          | Denied t =>
              Ok (mkFlags true ("Write operation not allowed: " ++ t))
          | Dangerous functionName =>
              Ok (mkFlags true ("Function not allowed: " ++ functionName))
          | Raises e => Throw e
          | Descend => forEach (fun kv => visit (snd kv)) props st
          end
      | _ => Ok st  (* line 55 *)
      end
  end.

(** The callback of line 91, by name, with the room its calls of
    [checkNode] find. *)
Definition visit (room : nat) (value : JSValue) (st : Flags)
  : Outcome Flags :=
  match value with
  | JArr items => forEach (checkNode room) items st
  | JObj _ => checkNode room value st
  | _ => Ok st
  end.

(** The object the validator returns. *)
Record Verdict : Type := mkVerdict {
  isValid : bool;
  error : option string
}.

Section WithParser.

(** The room on the call stack when the validator is entered. *)
Variable stack : nat.

(** [parse(sql, { dialect: "sqlite" })] of [sql-parser-cst]: the syntax
    tree, or a thrown error with its message.  The argument is whatever
    value the request carried as [sql]. *)
Variable parse : JSValue -> Outcome JSValue.

(** Lines 41-113. *)
Definition validateReadOnlyQuery (sql : JSValue) : Verdict :=
  match bindO (parse sql) (fun cst => checkNode stack cst initFlags) with
  | Ok st =>
      if hasNonReadOperation st
      then mkVerdict false (Some (errorMessage st))
      else mkVerdict true None
  | Throw message =>
      mkVerdict false (Some ("SQL parsing error: " ++ message))
  end.

End WithParser.

(** *** The walk on a stack without bound

    What [checkNode] computes when the stack never runs out; the facts
    about [checkNode] are proved through it. *)
Fixpoint walk (node : JSValue) (st : Flags) {struct node} : Outcome Flags :=
  let walkValue (value : JSValue) (st : Flags) : Outcome Flags :=
    match value with
    | JArr items => forEach walk items st
    | JObj _ => walk value st
    | _ => Ok st
    end in
  match node with
  | JArr elems => forEach walkValue elems st
  | JObj props =>
      match inspect props with
      | Denied t =>
          Ok (mkFlags true ("Write operation not allowed: " ++ t))
      | Dangerous functionName =>
          Ok (mkFlags true ("Function not allowed: " ++ functionName))
      | Raises e => Throw e
      | Descend => forEach (fun kv => walkValue (snd kv)) props st
      end
  | _ => Ok st
  end.

Definition walkValue (value : JSValue) (st : Flags) : Outcome Flags :=
  match value with
  | JArr items => forEach walk items st
  | JObj _ => walk value st
  | _ => Ok st
  end.

(** The room a full walk of the tree takes: one call for the node, and
    under it the deepest of its values. *)
Fixpoint stackNeeded (node : JSValue) : nat :=
  let valueNeeded (value : JSValue) : nat :=
    match value with
    | JArr items => list_max (map stackNeeded items)
    | JObj _ => stackNeeded value
    | _ => 0
    end in
  match node with
  | JArr elems => S (list_max (map valueNeeded elems))
  | JObj props => S (list_max (map (fun kv => valueNeeded (snd kv)) props))
  | _ => 1
  end.

Definition valueNeeded (value : JSValue) : nat :=
  match value with
  | JArr items => list_max (map stackNeeded items)
  | JObj _ => stackNeeded value
  | _ => 0
  end.

(** *** Properties of syntax trees

    The words of the specification about a parse tree, as predicates on
    the value the parser returns.  A node is an object; the nodes of a
    tree are the objects reached through property values and array
    elements, at any depth. *)

Fixpoint anyNode (p : list (string * JSValue) -> bool) (v : JSValue) : bool :=
  match v with
  | JArr elems => existsb (anyNode p) elems
  | JObj props => p props || existsb (fun kv => anyNode p (snd kv)) props
  | _ => false
  end.

(** The node's kind is [t]. *)
Definition hasType (t : string) (ps : list (string * JSValue)) : bool :=
  strictEqStr (lookup "type" ps) t.

(** The node's kind is one of the write and DDL kinds. *)
Definition isDeniedNode (ps : list (string * JSValue)) : bool :=
  existsb (fun t => hasType t ps) deniedTypes.

Definition equalsIgnoreCase (a b : string) : bool :=
  String.eqb (toLowerCase a) (toLowerCase b).

(** A function-call node whose callee name is the string [name]. *)
Definition callsFunction (name : string) (ps : list (string * JSValue)) : bool :=
  hasType "function_call" ps && strictEqStr (lookup "name" ps) name.

(** A function-call node whose callee name, compared without regard to
    case, is one of the dangerous functions. *)
Definition isDangerousCall (ps : list (string * JSValue)) : bool :=
  hasType "function_call" ps &&
  match lookup "name" ps with
  | JStr name => existsb (equalsIgnoreCase name) dangerousFunctions
  | _ => false
  end.

(** A function-call node with a callee name, whatever its type. *)
Definition isNamedCall (ps : list (string * JSValue)) : bool :=
  hasType "function_call" ps && truthy (lookup "name" ps).

(** A function-call node whose callee name is present and is not a
    string (a nested identifier node, say). *)
Definition isUntypedCall (ps : list (string * JSValue)) : bool :=
  isNamedCall ps &&
  match lookup "name" ps with
  | JStr _ => false
  | _ => true
  end.

(** A node the validator is to reject. *)
Definition isViolation (props : list (string * JSValue)) : bool :=
  isDeniedNode props || isDangerousCall props.

(** The walk raised the flag, or did not return. *)
Definition flagsOrThrows (r : Outcome Flags) : Prop :=
  match r with
  | Ok st => hasNonReadOperation st = true
  | Throw _ => True
  end.

(** The reasons of the violations the walker meets, in the order it
    meets them.  It does not look below a violating node. *)
Fixpoint violations (node : JSValue) : list string :=
  match node with
  | JArr elems => flat_map violations elems
  | JObj props =>
      match inspect props with
      | Denied t => [ "Write operation not allowed: " ++ t ]
      | Dangerous functionName => [ "Function not allowed: " ++ functionName ]
      | Raises _ => []
      | Descend => flat_map (fun kv => violations (snd kv)) props
      end
  | _ => []
  end.

(** The flags after the walker has recorded the reasons [ms] in turn:
    each assignment of lines 68-69 and 84-85 overwrites the last. *)
Definition record (ms : list string) (st : Flags) : Flags :=
  fold_left (fun _ m => mkFlags true m) ms st.

(** First-error reporting, as the specification words it: the reason of
    the violation met first. *)
Definition firstViolation (node : JSValue) : option string :=
  hd_error (violations node).

Definition lastViolation (node : JSValue) : option string :=
  hd_error (rev (violations node)).

(** [hay.includes(needle)]. *)
Definition mentions (needle hay : string) : bool :=
  match String.index 0 needle hay with
  | Some _ => true
  | None => false
  end.

End Validator.

(** ** The request handler (main.ts, lines 128-323) *)

Module Handler.
Import Validator.

(** *** Collaborators *)

(** Modelled from the spec: the reply of the ledger's [charge], whose
    declaration is in [stripeflare].  The handler reads [charged] and
    [message]; the spec's ledger interface also gives the balance after
    the debit, which the handler never reads. *)
Record ChargeResult : Type := mkChargeResult {
  charged : bool;
  message : option string;
  balance : float
}.

(** The cursor of the storage client, as its interface declares it:
    [raw()] yields the rows or fails, the other three are plain fields. *)
Record Cursor : Type := mkCursor {
  raw : Outcome (list JSValue);
  columnNames : list string;
  rowsRead : float;
  rowsWritten : float
}.

Record Client : Type := mkClient {
  exec : JSValue -> list JSValue -> Outcome Cursor
}.

(** What [withStripeflare], the imports and the engine hand to the
    handler: the parser, the ledger, the storage client, and the room
    on the call stack when the validator is entered. *)
Record Collaborators : Type := mkCollaborators {
  callStack : nat;
  parse : JSValue -> Outcome JSValue;
  charge : float -> bool -> Outcome ChargeResult;
  createClient : Outcome Client
}.

(** The fields of [ctx.user] the handler reads. *)
Record User : Type := mkUser {
  access_token : option string;
  user_balance : float
}.

(** The request: the path of its URL, its method, and what
    [request.json()] resolves to (or the error it rejects with). *)
Record Request : Type := mkRequest {
  pathname : string;
  method : string;
  json : Outcome JSValue
}.

(** *** Responses *)

(** A JSON body is kept as the value handed to [JSON.stringify]; the
    welcome page of lines 237-315 is not modelled further. *)
Inductive Body : Type :=
| Json (payload : JSValue)
| Html.

Record Response : Type := mkResponse {
  status : nat;
  headers : list (string * string);
  body : Body
}.

(** *** Calls to the collaborators, in the order they are made *)

Inductive Event : Type :=
| CallCharge (amount : float) (allowNegative : bool)
| CallCreateClient
| CallExec (sql : JSValue) (params : list JSValue)
| CallRaw
| ConsoleError (message : string).

(** A computation of the handler: the calls it made, and its result or
    the error it threw. *)
Definition Eff (A : Type) : Type := (list Event * Outcome A)%type.

Definition ret {A} (a : A) : Eff A := ([], Ok a).

Definition bind {A B} (m : Eff A) (f : A -> Eff B) : Eff B :=
  match m with
  | (t, Ok a) => let (t', r) := f a in ((t ++ t')%list, r)
  | (t, Throw e) => (t, Throw e)
  end.

(** An expression that may throw and calls nobody. *)
Definition lift {A} (o : Outcome A) : Eff A := ([], o).

(** A call to a collaborator, with its reply. *)
Definition call {A} (ev : Event) (reply : Outcome A) : Eff A := ([ev], reply).

(** [try { m } catch (error) { h error.message }]. *)
Definition tryCatch {A} (m : Eff A) (h : string -> Eff A) : Eff A :=
  match m with
  | (t, Ok a) => (t, Ok a)
  | (t, Throw e) => let (t', r) := h e in ((t ++ t')%list, r)
  end.

Declare Scope eff_scope.
Delimit Scope eff_scope with eff.
Notation "x <- m ;; k" := (bind m (fun x => k))
  (at level 61, m at next level, right associativity) : eff_scope.
Notation "m ;;; k" := (bind m (fun _ => k))
  (at level 61, right associativity) : eff_scope.

(** *** Pieces of the handler *)

(** [v.k] for one of the keys the handler reads ([sql], [params]), none
    of which is a built-in property of arrays, strings, numbers or
    booleans. *)
Definition getProp (v : JSValue) (k : string) : Outcome JSValue :=
  match v with
  | JObj ps => Ok (lookup k ps)
  | JNull =>
      Throw ("Cannot read properties of null (reading '" ++ k ++ "')")
  | JUndefined =>
      Throw ("Cannot read properties of undefined (reading '" ++ k ++ "')")
  | _ => Ok JUndefined
  end.

(** Strings hold the UTF-8 bytes of their text.  A byte of the form
    [10xxxxxx] continues the code point that the bytes before it
    began. *)
Definition isContinuation (c : ascii) : bool :=
  let n := nat_of_ascii c in Nat.leb 128 n && Nat.leb n 191.

(** The code points of a string, each as a string: what iterating a
    string yields. *)
Fixpoint codePoints (s : string) : list string :=
  match s with
  | EmptyString => []
  | String c rest =>
      match codePoints rest with
      | String c' tail :: more =>
          if isContinuation c'
          then String c (String c' tail) :: more
          else String c "" :: String c' tail :: more
      | others => String c "" :: others
      end
  end.

(** [...(params || [])] at line 200.  A string spreads into its code
    points; a truthy value that is not iterable raises a [TypeError]. *)
Definition spreadParams (params : JSValue) : Outcome (list JSValue) :=
  if truthy params then
    match params with
    | JArr items => Ok items
    | JStr s => Ok (map JStr (codePoints s))
    | _ =>
        Throw "Spread syntax requires ...iterable[Symbol.iterator] to be a function"
    end
  else Ok [].

Definition optString (o : option string) : JSValue :=
  match o with
  | Some s => JStr s
  | None => JUndefined
  end.

(** [!user.access_token] is false exactly for a non-empty string. *)
Definition hasToken (u : User) : bool := truthy (optString (access_token u)).

Definition jsonHeaders : list (string * string) :=
  [ ("Content-Type", "application/json") ].

(** Line 180: [charge(0.1, false)]. *)
Definition fee : float := 0.1%float.

Definition errorResponse (code : nat) (fields : list (string * JSValue))
  : Response :=
  mkResponse code jsonHeaders (Json (JObj fields)).

(** Lines 204-220: no [status] is given, so it is 200. *)
Definition successResponse (u : User) (cursor : Cursor) (rows : list JSValue)
  : Response :=
  let result :=
    JObj [ ("columns", JArr (map JStr (columnNames cursor)));
           ("rows", JArr rows);
           ("meta", JObj [ ("rows_read", JNum (rowsRead cursor));
                           ("rows_written", JNum (rowsWritten cursor));
                           ("charge_applied", JNum 0.1%float);
                           ("remaining_balance",
                             JNum (PrimFloat.sub (user_balance u) 0.1%float)) ]) ] in
  mkResponse 200
    [ ("Content-Type", "application/json");
      ("Access-Control-Allow-Origin", "*") ]
    (Json (JObj [ ("result", result) ])).

Definition welcomePage : Response :=
  mkResponse 200 [ ("Content-Type", "text/html") ] Html.

(** Line 135: the route of the query endpoint. *)
Definition isQueryShared (request : Request) : bool :=
  String.eqb (pathname request) "/query/shared"
  && String.eqb (method request) "POST".

Local Open Scope eff_scope.

(** Lines 196-201: the storage client is created, the query is run
    with the spread parameters, and the rows are collected. *)
Definition runQuery (c : Collaborators) (data sql : JSValue)
  : Eff (Cursor * list JSValue) :=
  sharedClient <- call CallCreateClient (createClient c) ;;
  params <- lift (bindO (getProp data "params") spreadParams) ;;
  cursor <- call (CallExec sql params) (exec sharedClient sql params) ;;
  rows <- call CallRaw (raw cursor) ;;
  ret (cursor, rows).

(** The body of the [try] block, lines 137-220. *)
Definition queryShared (c : Collaborators) (u : User) (request : Request)
  : Eff Response :=
  if negb (hasToken u) then
    ret (errorResponse 401 [ ("error", JStr "Authentication required") ])
  else
    data <- lift (json request) ;;
    sql <- lift (getProp data "sql") ;;
    if negb (truthy sql) then
      ret (errorResponse 400 [ ("error", JStr "SQL query is required") ])
    else
      let validation := validateReadOnlyQuery (callStack c) (parse c) sql in
      if negb (isValid validation) then
        ret (errorResponse 400
               [ ("error", JStr "Invalid query");
                 ("details", optString (error validation)) ])
      else
        chargeResult <- call (CallCharge 0.1%float false)
                             (charge c 0.1%float false) ;;
        if negb (charged chargeResult) then
          ret (errorResponse 402
                 [ ("error", JStr "Insufficient balance");
                   ("message", optString (message chargeResult));
                   ("balance", JNum (user_balance u)) ])
        else
          executed <- runQuery c data sql ;;
          ret (successResponse u (fst executed) (snd executed)).

(** The [catch] block, lines 221-233. *)
Definition onError (message : string) : Eff Response :=
  call (ConsoleError message) (Ok tt) ;;;
  ret (errorResponse 500
         [ ("error", JStr "Query execution failed");
           ("details", JStr message) ]).

(** The handler passed to [withStripeflare] (lines 130-320). *)
Definition fetch (c : Collaborators) (u : User) (request : Request)
  : Eff Response :=
  if isQueryShared request
  then tryCatch (queryShared c u request) onError
  else ret welcomePage.

Local Close Scope eff_scope.

(** *** Reading a trace and a response *)

(** The ledger is reached through [charge] alone: it is the one
    collaborator of the handler that changes a balance. *)
Definition isLedgerCall (ev : Event) : bool :=
  match ev with
  | CallCharge _ _ => true
  | _ => false
  end.

Definition isExecCall (ev : Event) : bool :=
  match ev with
  | CallExec _ _ => true
  | _ => false
  end.

(** [body.result], and [body.result.meta[k]], of a JSON response. *)
Definition resultOf (r : Response) : JSValue :=
  match body r with
  | Json (JObj fields) => lookup "result" fields
  | _ => JUndefined
  end.

Definition metaField (k : string) (r : Response) : JSValue :=
  match resultOf r with
  | JObj result =>
      match lookup "meta" result with
      | JObj meta => lookup k meta
      | _ => JUndefined
      end
  | _ => JUndefined
  end.

(** *** The stages of the pipeline

    The request carried a body with a truthy [sql]. *)
Definition Parsed (u : User) (request : Request) (data sql : JSValue)
  : Prop :=
  hasToken u = true /\ json request = Ok data
  /\ getProp data "sql" = Ok sql /\ truthy sql = true.

(** The server-error response of the [catch] block. *)
Definition failure (e : string) : Response :=
  errorResponse 500 [ ("error", JStr "Query execution failed");
                      ("details", JStr e) ].

(** Where a request to the query endpoint ends: the calls made and the
    response given at each way out of lines 136-233. *)
Inductive Ends (c : Collaborators) (u : User) (request : Request)
  : list Event -> Response -> Prop :=
| EndsUnauthenticated :
    hasToken u = false ->
    Ends c u request []
      (errorResponse 401 [ ("error", JStr "Authentication required") ])
| EndsBodyThrows e :
    hasToken u = true -> json request = Throw e ->
    Ends c u request [ConsoleError e] (failure e)
| EndsSqlThrows data e :
    hasToken u = true -> json request = Ok data ->
    getProp data "sql" = Throw e ->
    Ends c u request [ConsoleError e] (failure e)
| EndsSqlMissing data sql :
    hasToken u = true -> json request = Ok data ->
    getProp data "sql" = Ok sql -> truthy sql = false ->
    Ends c u request []
      (errorResponse 400 [ ("error", JStr "SQL query is required") ])
| EndsInvalid data sql :
    Parsed u request data sql ->
    isValid (validateReadOnlyQuery (callStack c) (parse c) sql) = false ->
    Ends c u request []
      (errorResponse 400
         [ ("error", JStr "Invalid query");
           ("details",
             optString (error (validateReadOnlyQuery (callStack c) (parse c) sql))) ])
| EndsChargeThrows data sql e :
    Parsed u request data sql ->
    isValid (validateReadOnlyQuery (callStack c) (parse c) sql) = true ->
    charge c fee false = Throw e ->
    Ends c u request [CallCharge fee false; ConsoleError e] (failure e)
| EndsNotCharged data sql chargeResult :
    Parsed u request data sql ->
    isValid (validateReadOnlyQuery (callStack c) (parse c) sql) = true ->
    charge c fee false = Ok chargeResult ->
    charged chargeResult = false ->
    Ends c u request [CallCharge fee false]
      (errorResponse 402
         [ ("error", JStr "Insufficient balance");
           ("message", optString (message chargeResult));
           ("balance", JNum (user_balance u)) ])
| EndsExecuteThrows data sql chargeResult calls e :
    Parsed u request data sql ->
    isValid (validateReadOnlyQuery (callStack c) (parse c) sql) = true ->
    charge c fee false = Ok chargeResult ->
    charged chargeResult = true ->
    runQuery c data sql = (calls, Throw e) ->
    Ends c u request
      (CallCharge fee false :: (calls ++ [ConsoleError e])%list) (failure e)
| EndsRespond data sql chargeResult calls cursor rows :
    Parsed u request data sql ->
    isValid (validateReadOnlyQuery (callStack c) (parse c) sql) = true ->
    charge c fee false = Ok chargeResult ->
    charged chargeResult = true ->
    runQuery c data sql = (calls, Ok (cursor, rows)) ->
    Ends c u request (CallCharge fee false :: calls)
      (successResponse u cursor rows).

End Handler.

(** ** Sample trees, parsers and collaborators *)

Module Fixtures.
Import Validator Handler.

(** Trees in the shape [sql-parser-cst] gives them: every node is an
    object with a [type]; keywords and identifiers carry their [text]
    and [name]; a function call is a [func_call] node whose [name] is an
    identifier node; an operator chain nests to the left. *)

Definition node (type : string) (rest : list (string * JSValue)) : JSValue :=
  JObj (("type", JStr type) :: rest).

Definition keyword (text : string) : JSValue :=
  node "keyword" [ ("text", JStr text); ("name", JStr text) ].

Definition ident (name : string) : JSValue :=
  node "identifier" [ ("text", JStr name); ("name", JStr name) ].

Definition number (text : string) (value : float) : JSValue :=
  node "number_literal" [ ("text", JStr text); ("value", JNum value) ].

Definition quoted (value : string) : JSValue :=
  node "string_literal"
    [ ("text", JStr ("'" ++ value ++ "'")); ("value", JStr value) ].

Definition listOf (items : list JSValue) : JSValue :=
  node "list_expr" [ ("items", JArr items) ].

Definition paren (expr : JSValue) : JSValue :=
  node "paren_expr" [ ("expr", expr) ].

Definition funcCall (name : string) (args : list JSValue) : JSValue :=
  node "func_call"
    [ ("name", ident name);
      ("args", paren (node "func_args" [ ("args", listOf args) ])) ].

Definition program (statements : list JSValue) : JSValue :=
  node "program" [ ("statements", JArr statements) ].

Definition selectClause (columns : list JSValue) : JSValue :=
  node "select_clause"
    [ ("selectKw", keyword "SELECT"); ("columns", listOf columns) ].

Definition selectOnly (columns : list JSValue) : JSValue :=
  node "select_stmt" [ ("clauses", JArr [ selectClause columns ]) ].

Definition selectOf (columns : list JSValue) (table : string) : JSValue :=
  node "select_stmt"
    [ ("clauses",
       JArr [ selectClause columns;
              node "from_clause"
                [ ("fromKw", keyword "FROM"); ("expr", ident table) ] ]) ].

Definition star : JSValue := node "all_columns" [].

(** SELECT COUNT( * ) as total FROM sample_data *)
Definition selectCount : JSValue :=
  program
    [ selectOf
        [ node "alias"
            [ ("expr", funcCall "COUNT" [ star ]);
              ("asKw", keyword "as");
              ("alias", ident "total") ] ]
        "sample_data" ].

Definition insertValues : JSValue :=
  node "insert_stmt"
    [ ("clauses",
       JArr [ node "insert_clause"
                [ ("insertKw", keyword "INSERT"); ("intoKw", keyword "INTO");
                  ("table", ident "t") ];
              node "values_clause"
                [ ("valuesKw", keyword "VALUES");
                  ("values",
                    listOf [ paren (listOf [ number "1" 1%float ]) ]) ] ]) ].

Definition deleteFrom : JSValue :=
  node "delete_stmt"
    [ ("clauses",
       JArr [ node "delete_clause"
                [ ("deleteKw", keyword "DELETE"); ("fromKw", keyword "FROM");
                  ("tables", listOf [ ident "t" ]) ] ]) ].

(** INSERT INTO t VALUES (1); DELETE FROM t *)
Definition insertThenDelete : JSValue :=
  program [ insertValues; deleteFrom ].

(** SELECT LOAD_EXTENSION('x') *)
Definition selectLoadUpper : JSValue :=
  program [ selectOnly [ funcCall "LOAD_EXTENSION" [ quoted "x" ] ] ].

(** 1 + 1 + ... + 1, with [n] additions: the parser reads the chain in a
    loop and nests it to the left, so the tree is as deep as the chain
    is long. *)
Fixpoint chainExpr (n : nat) : JSValue :=
  match n with
  | 0 => number "1" 1%float
  | S k =>
      node "binary_expr"
        [ ("left", chainExpr k); ("operator", JStr "+");
          ("right", number "1" 1%float) ]
  end.

Fixpoint plusOnes (n : nat) : string :=
  match n with
  | 0 => ""
  | S k => " + 1" ++ plusOnes k
  end.

(** SELECT 1 + 1 + ... + 1 *)
Definition chainSelect (n : nat) : JSValue :=
  program [ selectOnly [ chainExpr n ] ].

Definition sqlChain (n : nat) : string := "SELECT 1" ++ plusOnes n.

(** INSERT INTO t VALUES (1); SELECT 1 + 1 + ... + 1 *)
Definition insertThenChain (n : nat) : JSValue :=
  program [ insertValues; selectOnly [ chainExpr n ] ].

Definition sqlInsertChain (n : nat) : string :=
  "INSERT INTO t VALUES (1); SELECT 1" ++ plusOnes n.

(** A call node as the parser gives it, whose callee is [f] without
    regard to case. *)
Definition namesFunction (f : string) (props : list (string * JSValue))
  : bool :=
  hasType "func_call" props &&
  match lookup "name" props with
  | JObj callee =>
      match lookup "name" callee with
      | JStr name => equalsIgnoreCase name f
      | _ => false
      end
  | _ => false
  end.

(** A parser given by a table of texts and their trees; any other input
    is a syntax error. *)
Definition tableParser (table : list (string * JSValue)) (sql : JSValue)
  : Outcome JSValue :=
  match sql with
  | JStr text =>
      match find (fun row => String.eqb text (fst row)) table with
      | Some row => Ok (snd row)
      | None => Throw "Syntax Error: Unexpected input"
      end
  | _ => Throw "Syntax Error: Unexpected input"
  end.

Definition sqlCount : string := "SELECT COUNT(*) as total FROM sample_data".
Definition sqlInsertDelete : string := "INSERT INTO t VALUES (1); DELETE FROM t".
Definition sqlLoadUpper : string := "SELECT LOAD_EXTENSION('x')".

(** The room on the stack in the samples, and a chain far longer than
    it. *)
Definition sampleStack : nat := 4096.
Definition longChain : nat := 20000.

Definition sampleParser : JSValue -> Outcome JSValue :=
  tableParser
    [ (sqlCount, selectCount);
      (sqlInsertDelete, insertThenDelete);
      (sqlLoadUpper, selectLoadUpper) ].

(** The same parser on the two texts with a chain of [n] additions. *)
Definition chainParser (n : nat) : JSValue -> Outcome JSValue :=
  tableParser
    [ (sqlChain n, chainSelect n);
      (sqlInsertChain n, insertThenChain n) ].

(** The seeded table holds five rows. *)
Definition countCursor : Cursor :=
  mkCursor (Ok [ JArr [ JNum 5%float ] ]) [ "total" ] 5%float 0%float.

Definition failingCursor : Cursor :=
  mkCursor (Throw "no such table: sample_data") [] 0%float 0%float.

(** A ledger that debits the fee from 100 and reports what is left. *)
Definition payingLedger (amount : float) (_ : bool) : Outcome ChargeResult :=
  Ok (mkChargeResult true None (PrimFloat.sub 100%float amount)).

(** A ledger whose stored balance (50) is behind the session's. *)
Definition staleLedger (amount : float) (_ : bool) : Outcome ChargeResult :=
  Ok (mkChargeResult true None (PrimFloat.sub 50%float amount)).

Definition emptyLedger (_ : float) (_ : bool) : Outcome ChargeResult :=
  Ok (mkChargeResult false (Some "Insufficient balance") 0%float).

Definition world (ledger : float -> bool -> Outcome ChargeResult)
    (cursor : Cursor) : Collaborators :=
  mkCollaborators sampleStack sampleParser ledger
    (Ok (mkClient (fun _ _ => Ok cursor))).

Definition alice : User := mkUser (Some "token") 100%float.

Definition post (body : Outcome JSValue) : Request :=
  mkRequest "/query/shared" "POST" body.

Definition sqlBody (sql : string) : Outcome JSValue :=
  Ok (JObj [ ("sql", JStr sql) ]).

End Fixtures.

(** ** Variants of a node, readings of a trace, and further samples *)

Module Variants.
Import Validator Handler Fixtures.

(** The node with its [name] property, where it has one, set to [n]. *)
Definition withName (n : JSValue) (props : list (string * JSValue))
  : list (string * JSValue) :=
  map (fun kv => if String.eqb (fst kv) "name" then (fst kv, n) else kv)
      props.

(** The calls of a trace that reach the ledger. *)
Definition ledgerCalls (t : list Event) : list Event :=
  filter isLedgerCall t.

(** A value that [...(params || [])] accepts: a falsy one, replaced by
    the empty array, or an array or a string. *)
Definition spreadable (params : JSValue) : bool :=
  negb (truthy params) ||
  match params with
  | JArr _ | JStr _ => true
  | _ => false
  end.

(** The walk did not return. *)
Definition throws (r : Outcome Flags) : Prop :=
  exists e, r = Throw e.

(** A body with [sql] and [params]. *)
Definition paramsBody (sql : string) (params : JSValue) : Outcome JSValue :=
  Ok (JObj [ ("sql", JStr sql); ("params", params) ]).

(** A ledger that is out of reach. *)
Definition brokenLedger (_ : float) (_ : bool) : Outcome ChargeResult :=
  Throw "Ledger unavailable".

Definition anonymous : User := mkUser None 0%float.

End Variants.

(** * Facts about the validator *)

Import Validator Handler.

(** ** The loop *)

Lemma forEach_ext (A : Type) (f g : A -> Flags -> Outcome Flags) xs :
  Forall (fun x => forall st, f x st = g x st) xs ->
  forall st, forEach f xs st = forEach g xs st.
Proof.
  induction 1 as [|x rest Hx _ IH]; intro st; simpl; [reflexivity|].
  rewrite Hx. destruct (g x st); [apply IH | reflexivity].
Qed.

Lemma forEach_map (A B : Type) (h : A -> B) f xs st :
  forEach f (map h xs) st = forEach (fun x => f (h x)) xs st.
Proof.
  revert st; induction xs as [|x rest IH]; intro st; simpl; [reflexivity|].
  destruct (f (h x) st); [apply IH | reflexivity].
Qed.

Lemma existsb_snd (A B : Type) (p : B -> bool) (l : list (A * B)) :
  existsb (fun kv => p (snd kv)) l = existsb p (map snd l).
Proof.
  induction l as [|kv l IH]; simpl; [reflexivity | now rewrite IH].
Qed.

Lemma flat_map_snd (A B C : Type) (f : B -> list C) (l : list (A * B)) :
  flat_map (fun kv => f (snd kv)) l = flat_map f (map snd l).
Proof.
  induction l as [|kv l IH]; simpl; [reflexivity | now rewrite IH].
Qed.

(** On a stack without bound the callback does to a value what the walk
    does to it: passing an array to the walk or its elements to
    [forEach] comes to the same calls. *)
Lemma walkValue_walk v : forall st, walkValue v st = walk v st.
Proof.
  induction v as [| | | | |elems IH|props IH] using tree_ind;
    intro st; try reflexivity.
  change (forEach walk elems st = forEach walkValue elems st).
  symmetry. apply forEach_ext. exact IH.
Qed.

Lemma walk_arr elems st :
  walk (JArr elems) st = forEach walk elems st.
Proof.
  change (forEach walkValue elems st = forEach walk elems st).
  apply forEach_ext, Forall_forall. intros v _. apply walkValue_walk.
Qed.

Lemma walk_obj_unfold props st :
  walk (JObj props) st =
  match inspect props with
  | Denied t => Ok (mkFlags true ("Write operation not allowed: " ++ t))
  | Dangerous f => Ok (mkFlags true ("Function not allowed: " ++ f))
  | Raises e => Throw e
  | Descend => forEach (fun kv => walkValue (snd kv)) props st
  end.
Proof. reflexivity. Qed.

Lemma walk_obj props st :
  walk (JObj props) st =
  match inspect props with
  | Denied t => Ok (mkFlags true ("Write operation not allowed: " ++ t))
  | Dangerous f => Ok (mkFlags true ("Function not allowed: " ++ f))
  | Raises e => Throw e
  | Descend => forEach walk (map snd props) st
  end.
Proof.
  rewrite walk_obj_unfold. destruct (inspect props); try reflexivity.
  rewrite forEach_map. apply forEach_ext, Forall_forall.
  intros kv _. apply walkValue_walk.
Qed.

(** ** What the node's own properties decide *)

Lemma deniedType_spec type t :
  deniedType type = Some t <-> type = JStr t /\ In t deniedTypes.
Proof.
  unfold deniedType, includes. split.
  - destruct type as [| | | |s| |]; try discriminate.
    destruct (existsb (String.eqb s) deniedTypes) eqn:E; [|discriminate].
    intros [= <-]. split; [reflexivity|].
    apply existsb_exists in E as (t' & Hin & Heq).
    apply String.eqb_eq in Heq. now subst.
  - intros [-> Hin].
    replace (existsb (String.eqb t) deniedTypes) with true; [reflexivity|].
    symmetry. apply existsb_exists. exists t. split; [assumption|].
    apply String.eqb_refl.
Qed.

Lemma isDeniedNode_deniedType props :
  isDeniedNode props = true <->
  exists t, deniedType (lookup "type" props) = Some t.
Proof.
  unfold isDeniedNode, hasType. split.
  - intros H. apply existsb_exists in H as (t & Hin & Heq).
    exists t. apply deniedType_spec. split; [|assumption].
    unfold strictEqStr in Heq.
    destruct (lookup "type" props); try discriminate.
    apply String.eqb_eq in Heq. now subst.
  - intros (t & H). apply deniedType_spec in H as [Ht Hin].
    apply existsb_exists. exists t. split; [assumption|].
    rewrite Ht. apply String.eqb_refl.
Qed.

(** The members of [dangerousFunctions] are in lower case, so comparing
    without regard to case is looking the lowered name up. *)
Lemma dangerous_lower name :
  existsb (equalsIgnoreCase name) dangerousFunctions
  = includes dangerousFunctions (toLowerCase name).
Proof. reflexivity. Qed.

Lemma includes_In l s : includes l s = true <-> In s l.
Proof.
  unfold includes. rewrite existsb_exists. split.
  - intros (x & Hin & Heq). apply String.eqb_eq in Heq. now subst.
  - intros Hin. exists s. split; [assumption | apply String.eqb_refl].
Qed.

Lemma inspect_denied props t :
  inspect props = Denied t -> In t deniedTypes /\ hasType t props = true.
Proof.
  unfold inspect, hasType.
  destruct (deniedType (lookup "type" props)) as [t'|] eqn:E.
  - intros [= <-]. apply deniedType_spec in E as [-> Hin].
    split; [assumption | apply String.eqb_refl].
  - destruct (strictEqStr _ "function_call" && truthy _); [|discriminate].
    destruct (lookup "name" props); try discriminate.
    destruct (includes _ _); discriminate.
Qed.

Lemma inspect_dangerous props f :
  inspect props = Dangerous f ->
  exists name, f = toLowerCase name /\ In f dangerousFunctions
               /\ callsFunction name props = true.
Proof.
  unfold inspect, callsFunction, hasType.
  destruct (deniedType (lookup "type" props)); [discriminate|].
  destruct (strictEqStr (lookup "type" props) "function_call") eqn:Et;
    [|discriminate].
  destruct (truthy (lookup "name" props)); [|discriminate]. cbn [andb].
  destruct (lookup "name" props) as [| | | |s| |]; try discriminate.
  destruct (includes dangerousFunctions (toLowerCase s)) eqn:Ei;
    [|discriminate].
  intros [= <-]. exists s. repeat split.
  - now apply includes_In.
  - cbn [strictEqStr]. apply String.eqb_refl.
Qed.

Lemma inspect_raises props e :
  inspect props = Raises e -> e = notAFunction /\ isUntypedCall props = true.
Proof.
  unfold inspect, isUntypedCall, isNamedCall, hasType.
  destruct (deniedType (lookup "type" props)); [discriminate|].
  destruct (strictEqStr (lookup "type" props) "function_call");
    [|discriminate].
  destruct (truthy (lookup "name" props)) eqn:Ht; [|discriminate].
  cbn [andb].
  destruct (lookup "name" props); try (intros [= <-]; split; reflexivity).
  destruct (includes _ _); discriminate.
Qed.

(** A node of a denied kind is met as such; a dangerous call is met as
    such unless the node is of a denied kind (which no call is). *)
Lemma inspect_of_denied props :
  isDeniedNode props = true -> exists t, inspect props = Denied t.
Proof.
  intros H. apply isDeniedNode_deniedType in H as (t & H).
  exists t. unfold inspect. now rewrite H.
Qed.

Lemma call_not_denied props :
  hasType "function_call" props = true -> isDeniedNode props = false.
Proof.
  unfold isDeniedNode, hasType, strictEqStr.
  destruct (lookup "type" props); try discriminate.
  intros H. apply String.eqb_eq in H. subst. reflexivity.
Qed.

Lemma inspect_of_dangerous props :
  isDangerousCall props = true -> exists f, inspect props = Dangerous f.
Proof.
  unfold isDangerousCall. intros H.
  apply andb_true_iff in H as [Hc Hn].
  pose proof (call_not_denied _ Hc) as Hd.
  unfold inspect.
  destruct (deniedType (lookup "type" props)) as [t|] eqn:E.
  - assert (isDeniedNode props = true)
      by (apply isDeniedNode_deniedType; now exists t).
    congruence.
  - unfold hasType in Hc. rewrite Hc.
    destruct (lookup "name" props) as [| | | |s| |]; try discriminate.
    rewrite dangerous_lower in Hn.
    assert (truthy (JStr s) = true) as ->.
    { destruct s; [discriminate Hn | reflexivity]. }
    cbn [andb]. rewrite Hn. eauto.
Qed.

Lemma inspect_descend props :
  isDeniedNode props = false ->
  isDangerousCall props = false ->
  isUntypedCall props = false ->
  inspect props = Descend.
Proof.
  intros Hd Hg Hu. destruct (inspect props) as [t|f|e|] eqn:E;
    [exfalso..|reflexivity].
  - apply inspect_denied in E as [Hin Ht].
    assert (isDeniedNode props = true); [|congruence].
    apply existsb_exists. eauto.
  - apply inspect_dangerous in E as (name & -> & Hin & Hc).
    assert (isDangerousCall props = true); [|congruence].
    unfold callsFunction in Hc. apply andb_true_iff in Hc as [Hc Hn].
    unfold isDangerousCall. rewrite Hc. cbn [andb].
    unfold strictEqStr in Hn.
    destruct (lookup "name" props); try discriminate.
    apply String.eqb_eq in Hn. subst.
    rewrite dangerous_lower. now apply includes_In.
  - apply inspect_raises in E as [_ E]. congruence.
Qed.

(** ** The flags the walk leaves *)

Lemma record_app ms ms' st :
  record (ms ++ ms')%list st = record ms' (record ms st).
Proof. apply fold_left_app. Qed.

Lemma record_flagged ms st :
  hasNonReadOperation st = true ->
  hasNonReadOperation (record ms st) = true.
Proof.
  revert st. induction ms as [|m ms IH]; intros st H; [exact H|].
  apply IH. reflexivity.
Qed.

(** The last assignment wins. *)
Lemma record_last ms st :
  record ms st =
  match hd_error (rev ms) with
  | Some m => mkFlags true m
  | None => st
  end.
Proof.
  destruct ms as [|m ms _] using rev_ind; [reflexivity|].
  rewrite record_app, rev_unit. reflexivity.
Qed.

Lemma forEach_record elems :
  Forall (fun v => forall st st',
            walk v st = Ok st' -> st' = record (violations v) st) elems ->
  forall st st',
    forEach walk elems st = Ok st' ->
    st' = record (flat_map violations elems) st.
Proof.
  induction 1 as [|v rest Hv _ IH]; intros st st'; simpl.
  - now intros [= <-].
  - destruct (walk v st) as [st1|e] eqn:E; [|discriminate].
    intros H. rewrite record_app, <- (Hv _ _ E). now apply IH.
Qed.

(** A walk that returns leaves the flags as the reasons it met, written
    one over the other, leave them. *)
Lemma walk_record v :
  forall st st', walk v st = Ok st' -> st' = record (violations v) st.
Proof.
  induction v as [| | | | |elems IH|props IH] using tree_ind;
    intros st st'; try (now intros [= <-]).
  - rewrite walk_arr. now apply forEach_record.
  - rewrite walk_obj. cbn [violations].
    destruct (inspect props); try (now intros [= <-]).
    rewrite flat_map_snd. apply forEach_record.
    now apply Forall_map.
Qed.

Lemma walk_keeps_flag v st st' :
  walk v st = Ok st' ->
  hasNonReadOperation st = true -> hasNonReadOperation st' = true.
Proof.
  intros H Hf. rewrite (walk_record _ _ H). now apply record_flagged.
Qed.

Lemma forEach_keeps_flag elems : forall st st',
  forEach walk elems st = Ok st' ->
  hasNonReadOperation st = true -> hasNonReadOperation st' = true.
Proof.
  intros st st' H Hf.
  rewrite (forEach_record (elems := elems)) with (st := st) (st' := st').
  - now apply record_flagged.
  - apply Forall_forall. intros v _. apply walk_record.
  - exact H.
Qed.

(** ** Nodes of a tree *)

Lemma anyNode_arr p elems :
  anyNode p (JArr elems) = existsb (anyNode p) elems.
Proof. reflexivity. Qed.

Lemma anyNode_obj p props :
  anyNode p (JObj props) = p props || existsb (anyNode p) (map snd props).
Proof. cbn [anyNode]. now rewrite existsb_snd. Qed.

Lemma anyNode_impl (p q : list (string * JSValue) -> bool) v :
  (forall props, p props = true -> q props = true) ->
  anyNode p v = true -> anyNode q v = true.
Proof.
  intros Hpq.
  induction v as [| | | | |elems IH|props IH] using tree_ind;
    try discriminate.
  - rewrite !anyNode_arr, !existsb_exists. intros (e & Hin & He).
    exists e. split; [assumption|].
    rewrite Forall_forall in IH. now apply IH.
  - rewrite !anyNode_obj, !orb_true_iff, !existsb_exists.
    intros [Hp|(e & Hin & He)]; [left; now apply Hpq|right].
    exists e. split; [assumption|].
    apply in_map_iff in Hin as (kv & <- & Hin).
    rewrite Forall_forall in IH. now apply (IH kv).
Qed.

(** ** When the walk throws *)

Lemma forEach_throws p elems :
  Forall (fun v => forall st e, walk v st = Throw e ->
                   e = notAFunction /\ anyNode p v = true) elems ->
  forall st e, forEach walk elems st = Throw e ->
               e = notAFunction /\ existsb (anyNode p) elems = true.
Proof.
  induction 1 as [|v rest Hv _ IH]; intros st e; simpl; [discriminate|].
  destruct (walk v st) as [st1|e1] eqn:E.
  - intros H. destruct (IH _ _ H) as [-> ->]. split; [reflexivity|].
    apply orb_true_r.
  - intros [= <-]. destruct (Hv _ _ E) as [-> ->]. split; reflexivity.
Qed.

(** The walk throws only at a function-call node whose name is not a
    string, and then with the engine's [TypeError]. *)
Lemma walk_throws v :
  forall st e, walk v st = Throw e ->
               e = notAFunction /\ anyNode isUntypedCall v = true.
Proof.
  induction v as [| | | | |elems IH|props IH] using tree_ind;
    intros st e; try discriminate.
  - rewrite walk_arr, anyNode_arr. now apply forEach_throws.
  - rewrite walk_obj, anyNode_obj.
    destruct (inspect props) as [t|f|e'|] eqn:E; try discriminate.
    + intros [= <-]. apply inspect_raises in E as [-> ->].
      split; reflexivity.
    + intros H. apply forEach_throws with (p := isUntypedCall) in H;
        [|now apply Forall_map].
      destruct H as [-> ->]. split; [reflexivity | apply orb_true_r].
Qed.

(** ** Every reason comes from a node of the tree *)

Lemma violations_sound v m :
  In m (violations v) ->
  (exists t, In t deniedTypes /\ anyNode (hasType t) v = true
             /\ m = "Write operation not allowed: " ++ t)
  \/ (exists name, In (toLowerCase name) dangerousFunctions
                   /\ anyNode (callsFunction name) v = true
                   /\ m = "Function not allowed: " ++ toLowerCase name).
Proof.
  induction v as [| | | | |elems IH|props IH] using tree_ind;
    try (intros []).
  - cbn [violations]. rewrite in_flat_map. intros (e & Hin & Hm).
    rewrite Forall_forall in IH.
    destruct (IH e Hin Hm) as [(t & Ht & Ha & ->)|(n & Hn & Ha & ->)];
      [left; exists t|right; exists n]; repeat split; try assumption;
      rewrite anyNode_arr; apply existsb_exists; eauto.
  - cbn [violations]. destruct (inspect props) as [t|f|e|] eqn:E.
    + intros [<-|[]]. apply inspect_denied in E as [Hin Ht].
      left. exists t. repeat split; [assumption|].
      rewrite anyNode_obj, Ht. reflexivity.
    + intros [<-|[]]. apply inspect_dangerous in E as (n & -> & Hin & Hc).
      right. exists n. repeat split; [assumption|].
      rewrite anyNode_obj, Hc. reflexivity.
    + intros [].
    + rewrite in_flat_map. intros (kv & Hin & Hm).
      rewrite Forall_forall in IH.
      assert (In (snd kv) (map snd props)) as Hin' by now apply in_map.
      destruct (IH kv Hin Hm) as [(t & Ht & Ha & ->)|(n & Hn & Ha & ->)];
        [left; exists t|right; exists n]; repeat split; try assumption;
        rewrite anyNode_obj; apply orb_true_iff; right;
        apply existsb_exists; eauto.
Qed.

Lemma hasType_denied t props :
  In t deniedTypes -> hasType t props = true -> isDeniedNode props = true.
Proof. intros Hin Ht. apply existsb_exists. eauto. Qed.

Lemma callsFunction_named name props :
  In (toLowerCase name) dangerousFunctions ->
  callsFunction name props = true ->
  isDangerousCall props = true /\ isNamedCall props = true.
Proof.
  unfold callsFunction, isDangerousCall, isNamedCall. intros Hin H.
  apply andb_true_iff in H as [-> Hn]. cbn [andb].
  unfold strictEqStr in Hn.
  destruct (lookup "name" props) as [| | | |s| |]; try discriminate.
  apply String.eqb_eq in Hn. subst s. split.
  - rewrite dangerous_lower. now apply includes_In.
  - destruct name; [destruct Hin as [H|[H|[H|[H|[]]]]]; discriminate H|].
    reflexivity.
Qed.

(** ** A violation anywhere raises the flag, unless the walk throws *)

Lemma forEach_flags elems :
  Forall (fun v => anyNode isViolation v = true ->
                   forall st, flagsOrThrows (walk v st)) elems ->
  existsb (anyNode isViolation) elems = true ->
  forall st, flagsOrThrows (forEach walk elems st).
Proof.
  induction 1 as [|v rest Hv _ IH]; simpl; [discriminate|].
  intros Hex st. destruct (walk v st) as [st1|e] eqn:E; [|exact I].
  destruct (anyNode isViolation v) eqn:Ev.
  - specialize (Hv eq_refl st). rewrite E in Hv. simpl in Hv.
    destruct (forEach walk rest st1) as [st2|e] eqn:E2; [|exact I].
    simpl. eapply forEach_keeps_flag; eassumption.
  - now apply IH.
Qed.

Lemma walk_flags v :
  anyNode isViolation v = true -> forall st, flagsOrThrows (walk v st).
Proof.
  induction v as [| | | | |elems IH|props IH] using tree_ind;
    try discriminate.
  - rewrite anyNode_arr. intros H st. rewrite walk_arr.
    now apply forEach_flags.
  - rewrite anyNode_obj. intros H st. rewrite walk_obj.
    destruct (inspect props) as [t|f|e|] eqn:E; try exact I;
      try reflexivity.
    apply forEach_flags; [now apply Forall_map|].
    apply orb_true_iff in H as [H|H]; [exfalso|exact H].
    apply orb_true_iff in H as [H|H].
    + apply inspect_of_denied in H as (t & H). congruence.
    + apply inspect_of_dangerous in H as (f & H). congruence.
Qed.

(** A tree with no violation and no ill-typed call leaves the flags
    alone. *)
Lemma walk_clean v st :
  anyNode isDeniedNode v = false ->
  anyNode isDangerousCall v = false ->
  anyNode isUntypedCall v = false ->
  walk v st = Ok st.
Proof.
  intros Hd Hg Hu. destruct (walk v st) as [st'|e] eqn:E.
  - f_equal. rewrite (walk_record _ _ E).
    destruct (violations v) as [|m ms] eqn:Ev; [reflexivity|exfalso].
    destruct (violations_sound v m) as [(t & Hin & Ha & _)|(n & Hin & Ha & _)].
    + rewrite Ev. now left.
    + rewrite (anyNode_impl (hasType t) isDeniedNode v) in Hd;
        [discriminate| |exact Ha].
      intros props. now apply hasType_denied.
    + rewrite (anyNode_impl (callsFunction n) isDangerousCall v) in Hg;
        [discriminate| |exact Ha].
      intros props Hc. now apply (callsFunction_named n).
  - apply walk_throws in E as [_ E]. congruence.
Qed.

(** ** The call stack *)

Lemma checkNode_zero v st : checkNode 0 v st = Throw stackOverflow.
Proof. now destruct v. Qed.

Lemma checkNode_arr room elems st :
  checkNode (S room) (JArr elems) st = forEach (visit room) elems st.
Proof. reflexivity. Qed.

Lemma checkNode_obj room props st :
  checkNode (S room) (JObj props) st =
  match inspect props with
  | Denied t => Ok (mkFlags true ("Write operation not allowed: " ++ t))
  | Dangerous f => Ok (mkFlags true ("Function not allowed: " ++ f))
  | Raises e => Throw e
  | Descend => forEach (fun kv => visit room (snd kv)) props st
  end.
Proof. reflexivity. Qed.

Lemma forEach_bounded (A : Type) (f g : A -> Flags -> Outcome Flags) xs :
  Forall (fun x => forall st,
            f x st = g x st \/ f x st = Throw stackOverflow) xs ->
  forall st,
    forEach f xs st = forEach g xs st
    \/ forEach f xs st = Throw stackOverflow.
Proof.
  induction 1 as [|x rest Hx _ IH]; intro st; simpl; [now left|].
  destruct (Hx st) as [-> | ->]; [|now right].
  destruct (g x st); [apply IH | now left].
Qed.

(** With whatever room, [checkNode] does what the unbounded walk does,
    or runs out of stack. *)
Lemma bounded_walk v :
  forall stack st,
    (checkNode stack v st = walk v st
     \/ checkNode stack v st = Throw stackOverflow)
    /\ (visit stack v st = walk v st
        \/ visit stack v st = Throw stackOverflow).
Proof.
  induction v as [| | | | |elems IH|props IH] using tree_ind;
    intros stack st;
    try (split; [destruct stack; [now right | now left] | now left]).
  - split.
    + destruct stack as [|room]; [now right|].
      rewrite checkNode_arr, walk_arr. apply forEach_bounded.
      apply Forall_forall. intros e He. rewrite Forall_forall in IH.
      intro st'. apply (IH e He room st').
    + change (visit stack (JArr elems) st)
        with (forEach (checkNode stack) elems st).
      rewrite walk_arr. apply forEach_bounded.
      apply Forall_forall. intros e He. rewrite Forall_forall in IH.
      intro st'. apply (IH e He stack st').
  - assert (forall stack st,
               checkNode stack (JObj props) st = walk (JObj props) st
               \/ checkNode stack (JObj props) st = Throw stackOverflow)
      as Hnode.
    { clear stack st. intros stack st.
      destruct stack as [|room]; [now right|].
      rewrite checkNode_obj, walk_obj.
      destruct (inspect props); try (now left).
      rewrite forEach_map. apply forEach_bounded.
      apply Forall_forall. intros kv Hkv. rewrite Forall_forall in IH.
      intro st'. apply (IH kv Hkv room st'). }
    split; [apply Hnode | exact (Hnode stack st)].
Qed.

Lemma checkNode_cases stack v st :
  checkNode stack v st = walk v st
  \/ checkNode stack v st = Throw stackOverflow.
Proof. apply bounded_walk. Qed.

Lemma list_max_bound (A : Type) (need : A -> nat) xs room x :
  list_max (map need xs) <= room -> In x xs -> need x <= room.
Proof.
  intros H Hin. apply list_max_le in H. rewrite Forall_forall in H.
  apply H. now apply in_map.
Qed.

(** With room for the whole tree, [checkNode] is the unbounded walk. *)
Lemma enough_stack v :
  forall stack st,
    (stackNeeded v <= stack -> checkNode stack v st = walk v st)
    /\ (valueNeeded v <= stack -> visit stack v st = walk v st).
Proof.
  induction v as [| | | | |elems IH|props IH] using tree_ind;
    intros stack st;
    try (split; [intros H; destruct stack; [inversion H | reflexivity]
                | reflexivity]).
  - rewrite Forall_forall in IH. split.
    + intros H. destruct stack as [|room]; [inversion H|].
      rewrite checkNode_arr, walk_arr. apply forEach_ext.
      apply Forall_forall. intros e He st'. apply (IH e He room st').
      apply (list_max_bound valueNeeded elems); [|exact He].
      change (stackNeeded (JArr elems))
        with (S (list_max (map valueNeeded elems))) in H. lia.
    + intros H.
      change (visit stack (JArr elems) st)
        with (forEach (checkNode stack) elems st).
      rewrite walk_arr. apply forEach_ext.
      apply Forall_forall. intros e He st'. apply (IH e He stack st').
      now apply (list_max_bound stackNeeded elems).
  - rewrite Forall_forall in IH.
    assert (forall stack st,
               stackNeeded (JObj props) <= stack ->
               checkNode stack (JObj props) st = walk (JObj props) st)
      as Hnode.
    { clear stack st. intros stack st H.
      destruct stack as [|room]; [inversion H|].
      rewrite checkNode_obj, walk_obj.
      destruct (inspect props); try reflexivity.
      rewrite forEach_map. apply forEach_ext.
      apply Forall_forall. intros kv Hkv st'. apply (IH kv Hkv room st').
      apply (list_max_bound (fun kv => valueNeeded (snd kv)) props);
        [|exact Hkv].
      change (stackNeeded (JObj props))
        with (S (list_max (map (fun kv => valueNeeded (snd kv)) props)))
        in H.
      lia. }
    split; [apply Hnode | exact (Hnode stack st)].
Qed.

(** ** What [checkNode] leaves and throws *)

Lemma checkNode_record stack v st st' :
  checkNode stack v st = Ok st' -> st' = record (violations v) st.
Proof.
  intros H. destruct (checkNode_cases stack v st) as [E|E];
    rewrite E in H; [now apply walk_record | discriminate].
Qed.

(** The walk throws for want of stack, or at a function-call node whose
    name is not a string. *)
Lemma checkNode_throws stack v st e :
  checkNode stack v st = Throw e ->
  e = stackOverflow
  \/ (e = notAFunction /\ anyNode isUntypedCall v = true).
Proof.
  intros H. destruct (checkNode_cases stack v st) as [E|E];
    rewrite E in H.
  - right. eapply walk_throws, H.
  - left. now injection H.
Qed.

Lemma checkNode_flags stack v :
  anyNode isViolation v = true ->
  forall st, flagsOrThrows (checkNode stack v st).
Proof.
  intros Hv st. destruct (checkNode_cases stack v st) as [-> | ->];
    [now apply walk_flags | exact I].
Qed.

Lemma checkNode_returns stack v st :
  stackNeeded v <= stack ->
  anyNode isUntypedCall v = false ->
  exists st', checkNode stack v st = Ok st'.
Proof.
  intros Hs Hu. rewrite (proj1 (enough_stack v stack st) Hs).
  destruct (walk v st) as [st'|e] eqn:E; [eauto|].
  apply walk_throws in E as [_ E]. congruence.
Qed.

Lemma checkNode_clean stack v st :
  anyNode isDeniedNode v = false ->
  anyNode isDangerousCall v = false ->
  anyNode isUntypedCall v = false ->
  stackNeeded v <= stack ->
  checkNode stack v st = Ok st.
Proof.
  intros Hd Hg Hu Hs. rewrite (proj1 (enough_stack v stack st) Hs).
  now apply walk_clean.
Qed.

(** ** The verdict *)

Lemma validate_of_walk stack parse sql cst :
  parse sql = Ok cst ->
  validateReadOnlyQuery stack parse sql =
  match checkNode stack cst initFlags with
  | Ok st =>
      if hasNonReadOperation st
      then mkVerdict false (Some (errorMessage st))
      else mkVerdict true None
  | Throw e => mkVerdict false (Some ("SQL parsing error: " ++ e))
  end.
Proof. intros H. unfold validateReadOnlyQuery. now rewrite H. Qed.

(** The reason of a flagged walk is the last one met. *)
Lemma walk_reason stack v st :
  checkNode stack v initFlags = Ok st ->
  hasNonReadOperation st = true ->
  lastViolation v = Some (errorMessage st)
  /\ In (errorMessage st) (violations v).
Proof.
  intros H Hf. apply checkNode_record in H. rewrite record_last in H.
  unfold lastViolation.
  destruct (rev (violations v)) as [|m ms] eqn:E; simpl in H; subst st.
  - discriminate Hf.
  - split; [reflexivity|]. apply in_rev. rewrite E. now left.
Qed.

(** A violation anywhere in the tree makes the verdict a rejection with
    a reason. *)
Lemma violation_rejected stack parse sql cst :
  parse sql = Ok cst ->
  anyNode isViolation cst = true ->
  isValid (validateReadOnlyQuery stack parse sql) = false
  /\ exists reason,
       error (validateReadOnlyQuery stack parse sql) = Some reason.
Proof.
  intros Hp Hv. rewrite (validate_of_walk _ _ _ Hp).
  pose proof (checkNode_flags stack _ Hv initFlags) as Hf.
  destruct (checkNode stack cst initFlags) as [st|e]; simpl in *.
  - rewrite Hf. simpl. eauto.
  - eauto.
Qed.

(** C1, as amended.  If the tree of a statement holds, at any depth, a
    node of one of the eight write and DDL kinds, the validator rejects
    the statement and gives a reason.  When the walk returns and the
    tree holds no function-call node naming a dangerous function, that
    reason names a write operation: the kind of a node of the tree.
    The walk returns when the stack has room for the tree and no
    function-call node has a name that is not a string; when it throws,
    the reason is the parsing-error text with the message thrown.  The
    parser and the text are arbitrary, so the letter case of the text
    plays no part. *)
Theorem write_statement_rejected
    (stack : nat) (parse : JSValue -> Outcome JSValue)
    (sql : string) (cst : JSValue) :
  parse (JStr sql) = Ok cst ->
  anyNode isDeniedNode cst = true ->
  isValid (validateReadOnlyQuery stack parse (JStr sql)) = false
  /\ exists reason,
       error (validateReadOnlyQuery stack parse (JStr sql)) = Some reason
       /\ (forall st,
              checkNode stack cst initFlags = Ok st ->
              anyNode isDangerousCall cst = false ->
              exists t, In t deniedTypes
                        /\ anyNode (hasType t) cst = true
                        /\ reason = "Write operation not allowed: " ++ t)
       /\ (stackNeeded cst <= stack ->
           anyNode isUntypedCall cst = false ->
           exists st, checkNode stack cst initFlags = Ok st)
       /\ (forall e,
              checkNode stack cst initFlags = Throw e ->
              reason = "SQL parsing error: " ++ e).
Proof.
  intros Hp Hd.
  assert (anyNode isViolation cst = true) as Hv.
  { apply (anyNode_impl isDeniedNode); [|exact Hd].
    intros props H. unfold isViolation. now rewrite H. }
  destruct (violation_rejected stack _ _ Hp Hv) as [Hi (reason & Hr)].
  split; [exact Hi|]. exists reason. split; [exact Hr|].
  rewrite (validate_of_walk _ _ _ Hp) in Hr, Hi.
  split; [|split].
  - intros st E Hg. rewrite E in Hr, Hi.
    destruct (hasNonReadOperation st) eqn:Hf; [|discriminate Hi].
    injection Hr as <-.
    destruct (walk_reason _ _ E Hf) as [_ Hin].
    destruct (violations_sound _ _ Hin)
      as [(t & Ht & Ha & Hm)|(n & Hdg & Ha & _)]; [eauto|exfalso].
    rewrite (anyNode_impl (callsFunction n) isDangerousCall cst) in Hg;
      [discriminate| |exact Ha].
    intros props Hc. now apply (callsFunction_named n).
  - intros Hs Hu. now apply checkNode_returns.
  - intros e E. rewrite E in Hr. now injection Hr as <-.
Qed.

(** C5, as amended.  If the tree of a statement holds no node of a
    denied kind, no function-call node naming a dangerous function, and
    no function-call node whose name is present and not a string, and
    the stack has room for the tree, the validator allows the statement
    and gives no reason. *)
Theorem clean_statement_allowed
    (stack : nat) (parse : JSValue -> Outcome JSValue)
    (sql : string) (cst : JSValue) :
  parse (JStr sql) = Ok cst ->
  anyNode isDeniedNode cst = false ->
  anyNode isDangerousCall cst = false ->
  anyNode isUntypedCall cst = false ->
  stackNeeded cst <= stack ->
  validateReadOnlyQuery stack parse (JStr sql) = mkVerdict true None.
Proof.
  intros Hp Hd Hg Hu Hs. rewrite (validate_of_walk _ _ _ Hp).
  now rewrite checkNode_clean.
Qed.

(** C9, as amended.  The walk does not stop at a violation: it leaves
    the violating node's children alone and goes on with what follows,
    so that after the first element of an array the rest is walked
    whatever the first did; when the walk returns, the flags are those
    of the reasons met, each written over the one before, and the
    verdict reports the violation met last. *)
Theorem last_violation_reported
    (stack : nat) (parse : JSValue -> Outcome JSValue)
    (sql : string) (cst : JSValue) (st : Flags) :
  parse (JStr sql) = Ok cst ->
  checkNode stack cst initFlags = Ok st ->
  st = record (violations cst) initFlags
  /\ validateReadOnlyQuery stack parse (JStr sql) =
     match lastViolation cst with
     | Some reason => mkVerdict false (Some reason)
     | None => mkVerdict true None
     end
  /\ (forall room v rest st0,
         checkNode (S room) (JArr (v :: rest)) st0 =
         bindO (visit room v st0) (checkNode (S room) (JArr rest))).
Proof.
  intros Hp Hw. split; [now apply checkNode_record in Hw|]. split.
  - rewrite (validate_of_walk _ _ _ Hp), Hw.
    apply checkNode_record in Hw. rewrite record_last in Hw.
    unfold lastViolation.
    destruct (hd_error (rev (violations cst))); now subst st.
  - intros room v rest st0. rewrite checkNode_arr. cbn [forEach].
    destruct (visit room v st0); cbn [bindO]; reflexivity.
Qed.

(** * Facts about the handler *)

(** ** The computation *)

Lemma bind_ok (A B : Type) (a : A) (f : A -> Eff B) :
  bind (lift (Ok a)) f = f a.
Proof. unfold bind, lift. destruct (f a). reflexivity. Qed.

Lemma bind_call_ok (A B : Type) ev (a : A) (f : A -> Eff B) :
  bind (call ev (Ok a)) f = (ev :: fst (f a), snd (f a)).
Proof. unfold bind, call. destruct (f a). reflexivity. Qed.

(** The handler answers every request: whatever is thrown inside the
    [try] block is caught. *)
Lemma fetch_responds c u request :
  exists t response, fetch c u request = (t, Ok response).
Proof.
  unfold fetch. destruct (isQueryShared request); [|unfold ret; eauto].
  unfold tryCatch. destruct (queryShared c u request) as [t [r|e]];
    simpl; eauto.
Qed.

(** The calls of lines 196-201 do not touch the ledger. *)
Lemma runQuery_no_ledger c data sql :
  existsb isLedgerCall (fst (runQuery c data sql)) = false.
Proof.
  unfold runQuery.
  destruct (createClient c) as [client|e];
    [rewrite bind_call_ok|reflexivity].
  destruct (bindO (getProp data "params") spreadParams) as [params|e];
    [rewrite bind_ok|reflexivity].
  destruct (exec client sql params) as [cursor|e];
    [rewrite bind_call_ok|reflexivity].
  destruct (raw cursor) as [rows|e]; reflexivity.
Qed.

(** They start by creating the client, and reach [exec] only then. *)
Lemma runQuery_ext c c' data sql :
  createClient c' = createClient c ->
  runQuery c' data sql = runQuery c data sql.
Proof. intros H. unfold runQuery. now rewrite H. Qed.

(** ** The stages of the pipeline *)

Section Pipeline.
Variables (c : Collaborators) (u : User) (request : Request).
Hypothesis Hroute : isQueryShared request = true.

Lemma fetch_pipeline :
  fetch c u request = tryCatch (queryShared c u request) onError.
Proof. unfold fetch. now rewrite Hroute. Qed.

Lemma stage_auth :
  hasToken u = false ->
  fetch c u request =
  ([], Ok (errorResponse 401 [ ("error", JStr "Authentication required") ])).
Proof.
  intros H. rewrite fetch_pipeline. unfold queryShared. now rewrite H.
Qed.

Hypothesis Htoken : hasToken u = true.

Lemma stage_body_throws e :
  json request = Throw e ->
  fetch c u request =
  ([ConsoleError e],
   Ok (errorResponse 500 [ ("error", JStr "Query execution failed");
                           ("details", JStr e) ])).
Proof.
  intros H. rewrite fetch_pipeline. unfold queryShared.
  now rewrite Htoken, H.
Qed.

Variable data : JSValue.
Hypothesis Hdata : json request = Ok data.

Lemma stage_sql_throws e :
  getProp data "sql" = Throw e ->
  fetch c u request =
  ([ConsoleError e],
   Ok (errorResponse 500 [ ("error", JStr "Query execution failed");
                           ("details", JStr e) ])).
Proof.
  intros H. rewrite fetch_pipeline. unfold queryShared.
  now rewrite Htoken, Hdata, bind_ok, H.
Qed.

Variable sql : JSValue.
Hypothesis Hsql : getProp data "sql" = Ok sql.

Lemma stage_sql_missing :
  truthy sql = false ->
  fetch c u request =
  ([], Ok (errorResponse 400 [ ("error", JStr "SQL query is required") ])).
Proof.
  intros H. rewrite fetch_pipeline. unfold queryShared.
  now rewrite Htoken, Hdata, bind_ok, Hsql, bind_ok, H.
Qed.

Hypothesis Htruthy : truthy sql = true.

Lemma stage_invalid :
  isValid (validateReadOnlyQuery (callStack c) (parse c) sql) = false ->
  fetch c u request =
  ([], Ok (errorResponse 400
             [ ("error", JStr "Invalid query");
               ("details",
                 optString (error (validateReadOnlyQuery (callStack c) (parse c) sql))) ])).
Proof.
  intros H. rewrite fetch_pipeline. unfold queryShared.
  now rewrite Htoken, Hdata, bind_ok, Hsql, bind_ok, Htruthy, H.
Qed.

Hypothesis Hvalid : isValid (validateReadOnlyQuery (callStack c) (parse c) sql) = true.

Lemma stage_charge_throws e :
  charge c fee false = Throw e ->
  fetch c u request =
  ([CallCharge fee false; ConsoleError e],
   Ok (errorResponse 500 [ ("error", JStr "Query execution failed");
                           ("details", JStr e) ])).
Proof.
  intros H. rewrite fetch_pipeline. unfold queryShared.
  rewrite Htoken, Hdata, bind_ok, Hsql, bind_ok, Htruthy, Hvalid.
  cbn [negb]. change 0.1%float with fee. now rewrite H.
Qed.

Variable chargeResult : ChargeResult.
Hypothesis Hcharge : charge c fee false = Ok chargeResult.

Lemma stage_not_charged :
  charged chargeResult = false ->
  fetch c u request =
  ([CallCharge fee false],
   Ok (errorResponse 402
         [ ("error", JStr "Insufficient balance");
           ("message", optString (message chargeResult));
           ("balance", JNum (user_balance u)) ])).
Proof.
  intros H. rewrite fetch_pipeline. unfold queryShared.
  rewrite Htoken, Hdata, bind_ok, Hsql, bind_ok, Htruthy, Hvalid.
  cbn [negb]. change 0.1%float with fee.
  now rewrite Hcharge, bind_call_ok, H.
Qed.

Hypothesis Hcharged : charged chargeResult = true.

Lemma stage_execute_throws calls e :
  runQuery c data sql = (calls, Throw e) ->
  fetch c u request =
  (CallCharge fee false :: (calls ++ [ConsoleError e])%list,
   Ok (errorResponse 500 [ ("error", JStr "Query execution failed");
                           ("details", JStr e) ])).
Proof.
  intros H. rewrite fetch_pipeline. unfold queryShared.
  rewrite Htoken, Hdata, bind_ok, Hsql, bind_ok, Htruthy, Hvalid.
  cbn [negb]. change 0.1%float with fee.
  now rewrite Hcharge, bind_call_ok, Hcharged, H.
Qed.

Lemma stage_respond calls cursor rows :
  runQuery c data sql = (calls, Ok (cursor, rows)) ->
  fetch c u request =
  (CallCharge fee false :: calls, Ok (successResponse u cursor rows)).
Proof.
  intros H. rewrite fetch_pipeline. unfold queryShared.
  rewrite Htoken, Hdata, bind_ok, Hsql, bind_ok, Htruthy, Hvalid.
  cbn [negb]. change 0.1%float with fee.
  rewrite Hcharge, bind_call_ok, Hcharged, H. cbn.
  now rewrite app_nil_r.
Qed.

End Pipeline.

(** Every request to the query endpoint leaves by one of the nine ways
    out. *)
Ltac ends_by stage way :=
  eexists _, _; split; [eapply stage; eassumption | eapply way; eassumption].

Lemma fetch_ends c u request :
  isQueryShared request = true ->
  exists t response,
    fetch c u request = (t, Ok response) /\ Ends c u request t response.
Proof.
  intros Hroute.
  destruct (hasToken u) eqn:Htoken;
    [|ends_by stage_auth EndsUnauthenticated].
  destruct (json request) as [data|e] eqn:Hdata;
    [|ends_by stage_body_throws EndsBodyThrows].
  destruct (getProp data "sql") as [sql|e] eqn:Hsql;
    [|ends_by stage_sql_throws EndsSqlThrows].
  destruct (truthy sql) eqn:Htruthy;
    [|ends_by stage_sql_missing EndsSqlMissing].
  assert (Parsed u request data sql) as Hparsed by (repeat split; assumption).
  destruct (isValid (validateReadOnlyQuery (callStack c) (parse c) sql)) eqn:Hvalid;
    [|ends_by stage_invalid EndsInvalid].
  destruct (charge c fee false) as [cr|e] eqn:Hcharge;
    [|ends_by stage_charge_throws EndsChargeThrows].
  destruct (charged cr) eqn:Hcharged;
    [|ends_by stage_not_charged EndsNotCharged].
  destruct (runQuery c data sql) as [calls [[cursor rows]|e]] eqn:Hrun.
  - ends_by stage_respond EndsRespond.
  - ends_by stage_execute_throws EndsExecuteThrows.
Qed.

Lemma fetch_ends_inv c u request t response :
  isQueryShared request = true ->
  fetch c u request = (t, Ok response) ->
  Ends c u request t response.
Proof.
  intros Hroute H.
  destruct (fetch_ends c u request Hroute) as (t' & r' & H' & He).
  rewrite H in H'. now injection H' as -> ->.
Qed.

Lemma runQuery_calls c data sql calls r :
  runQuery c data sql = (calls, r) -> existsb isLedgerCall calls = false.
Proof.
  intros H. pose proof (runQuery_no_ledger c data sql) as Hn.
  now rewrite H in Hn.
Qed.

Lemma no_ledger_after calls e :
  existsb isLedgerCall calls = false ->
  existsb isLedgerCall (calls ++ [ConsoleError e])%list = false.
Proof. intros H. rewrite existsb_app, H. reflexivity. Qed.

(** Two readings of the same body and of the same [sql] agree. *)
Lemma Parsed_unique u request data sql data' sql' :
  Parsed u request data sql -> Parsed u request data' sql' ->
  data' = data /\ sql' = sql.
Proof.
  intros (_ & Hd & Hs & _) (_ & Hd' & Hs' & _).
  rewrite Hd in Hd'. injection Hd' as <-.
  rewrite Hs in Hs'. now injection Hs' as <-.
Qed.

(** A part of a claim about a stage other than the one the request
    ended at: either what it asks holds on the nose, or its hypotheses
    contradict the facts of the stage. *)
Ltac other_stage :=
  unfold Parsed in *;
  repeat match goal with
         | H : _ /\ _ |- _ => destruct H
         end;
  first [ split; reflexivity | exfalso; congruence ].

(** ** The claims about the handler *)

(** C2.  On the query endpoint the ledger is called only for a request
    whose statement the validator has allowed, once, and before anything
    else is called; the executor is called only after a charge that
    returned [charged = true]; a statement the validator rejects is
    answered by 400 with no call at all; and a charge that returns
    [charged = false] is answered by 402 with the charge as the only
    call. *)
Theorem charge_after_validation_execute_after_charge
    (c : Collaborators) (u : User) (request : Request)
    (t : list Event) (response : Response) :
  isQueryShared request = true ->
  fetch c u request = (t, Ok response) ->
  (existsb isLedgerCall t = true ->
   exists data sql rest,
     Parsed u request data sql
     /\ isValid (validateReadOnlyQuery (callStack c) (parse c) sql) = true
     /\ t = CallCharge fee false :: rest
     /\ existsb isLedgerCall rest = false)
  /\ (existsb isExecCall t = true ->
      exists chargeResult rest,
        charge c fee false = Ok chargeResult
        /\ charged chargeResult = true
        /\ t = CallCharge fee false :: rest)
  /\ (forall data sql,
        Parsed u request data sql ->
        isValid (validateReadOnlyQuery (callStack c) (parse c) sql) = false ->
        status response = 400 /\ t = [])
  /\ (forall data sql chargeResult,
        Parsed u request data sql ->
        isValid (validateReadOnlyQuery (callStack c) (parse c) sql) = true ->
        charge c fee false = Ok chargeResult ->
        charged chargeResult = false ->
        status response = 402 /\ t = [CallCharge fee false]).
Proof.
  intros Hroute H. apply fetch_ends_inv in H; [|exact Hroute].
  destruct H as
    [ Ht | e Ht Hd | data e Ht Hd Hs | data sql Ht Hd Hs Hf
    | data sql Hp Hv | data sql e Hp Hv Hc | data sql cr Hp Hv Hc Hn
    | data sql cr calls e Hp Hv Hc Hn Hr
    | data sql cr calls cursor rows Hp Hv Hc Hn Hr ];
    (split; [|split; [|split]]);
    try (intros Hex; discriminate Hex);
    try (intros; other_stage).
  - intros _. exists data, sql, [ConsoleError e].
    split; [exact Hp | split; [exact Hv | split; reflexivity]].
  - intros _. exists data, sql, [].
    split; [exact Hp | split; [exact Hv | split; reflexivity]].
  - intros _. exists data, sql, (calls ++ [ConsoleError e])%list.
    split; [exact Hp | split; [exact Hv | split; [reflexivity|]]].
    apply no_ledger_after. eapply runQuery_calls, Hr.
  - intros _. exists cr, (calls ++ [ConsoleError e])%list.
    split; [exact Hc | split; [exact Hn | reflexivity]].
  - intros _. exists data, sql, calls.
    split; [exact Hp | split; [exact Hv | split; [reflexivity|]]].
    eapply runQuery_calls, Hr.
  - intros _. exists cr, calls.
    split; [exact Hc | split; [exact Hn | reflexivity]].
Qed.

(** C4.  A text the parser rejects gets the verdict [isValid = false]
    with the parser's message as the reason; a request that carries it
    never reaches the ledger, and on the query endpoint an authenticated
    request with that text is answered by 400 "Invalid query" with the
    reason, no collaborator having been called. *)
Theorem parse_failure_fails_closed
    (c : Collaborators) (sql : string) (diagnostic : string) :
  parse c (JStr sql) = Throw diagnostic ->
  validateReadOnlyQuery (callStack c) (parse c) (JStr sql)
  = mkVerdict false (Some ("SQL parsing error: " ++ diagnostic))
  /\ forall u request data,
       json request = Ok data ->
       getProp data "sql" = Ok (JStr sql) ->
       existsb isLedgerCall (fst (fetch c u request)) = false
       /\ (isQueryShared request = true ->
           hasToken u = true ->
           sql <> "" ->
           fetch c u request =
           ([], Ok (errorResponse 400
                      [ ("error", JStr "Invalid query");
                        ("details",
                          JStr ("SQL parsing error: " ++ diagnostic)) ]))).
Proof.
  intros Hp.
  assert (validateReadOnlyQuery (callStack c) (parse c) (JStr sql)
          = mkVerdict false (Some ("SQL parsing error: " ++ diagnostic)))
    as Hv by (unfold validateReadOnlyQuery; now rewrite Hp).
  split; [exact Hv|]. intros u request data Hd Hs.
  assert (forall t response,
             isQueryShared request = true ->
             fetch c u request = (t, Ok response) ->
             existsb isLedgerCall t = false) as Hnone.
  { intros t response Hroute H.
    apply fetch_ends_inv in H; [|exact Hroute].
    destruct H; try reflexivity;
      match goal with
      | H : Parsed _ _ _ _ |- _ => destruct H as (_ & Hd' & Hs' & _)
      end;
      rewrite Hd in Hd'; injection Hd' as <-;
      rewrite Hs in Hs'; injection Hs' as <-;
      rewrite Hv in *; discriminate. }
  split.
  - destruct (isQueryShared request) eqn:Hroute.
    + destruct (fetch_responds c u request) as (t & response & H).
      rewrite H. now apply (Hnone t response).
    + unfold fetch. now rewrite Hroute.
  - intros Hroute Htoken Hne.
    assert (truthy (JStr sql) = true) as Ht
      by (destruct sql; [now destruct Hne | reflexivity]).
    rewrite (stage_invalid c u request Hroute Htoken Hd Hs Ht);
      now rewrite Hv.
Qed.

(** C6, as amended.  An authenticated request to the query endpoint
    whose body is JSON other than [null] and has no [sql], or a falsy
    one, is answered by 400 "SQL query is required" and calls nobody.  A
    body that is not JSON, or is [null], goes to the [catch] block: 500
    "Query execution failed" with the error's message. *)
Theorem missing_sql_is_bad_request
    (c : Collaborators) (u : User) (request : Request) :
  isQueryShared request = true ->
  hasToken u = true ->
  (forall data sql,
      json request = Ok data ->
      getProp data "sql" = Ok sql ->
      truthy sql = false ->
      fetch c u request =
      ([], Ok (mkResponse 400 [ ("Content-Type", "application/json") ]
                 (Json (JObj [ ("error", JStr "SQL query is required") ])))))
  /\ (forall e,
         json request = Throw e \/
         (exists data, json request = Ok data
                       /\ getProp data "sql" = Throw e) ->
         fetch c u request =
         ([ConsoleError e],
          Ok (mkResponse 500 [ ("Content-Type", "application/json") ]
                (Json (JObj [ ("error", JStr "Query execution failed");
                              ("details", JStr e) ])))))
  /\ getProp JNull "sql"
     = Throw "Cannot read properties of null (reading 'sql')".
Proof.
  intros Hroute Htoken. split; [|split].
  - intros data sql Hd Hs Hf.
    exact (stage_sql_missing c u request Hroute Htoken Hd Hs Hf).
  - intros e [Hd|(data & Hd & Hs)].
    + exact (stage_body_throws c u request Hroute Htoken Hd).
    + exact (stage_sql_throws c u request Hroute Htoken Hd Hs).
  - reflexivity.
Qed.

(** C7.  A request that passes validation, charging and execution is
    answered with status 200 and the body
    [{ result: { columns, rows, meta: { rows_read, rows_written,
    charge_applied, remaining_balance } } }], where [charge_applied] is
    the fee and [remaining_balance] is the user's balance minus the
    fee. *)
Theorem success_envelope
    (c : Collaborators) (u : User) (request : Request)
    (data sql : JSValue) (chargeResult : ChargeResult)
    (calls : list Event) (cursor : Cursor) (rows : list JSValue) :
  isQueryShared request = true ->
  Parsed u request data sql ->
  isValid (validateReadOnlyQuery (callStack c) (parse c) sql) = true ->
  charge c fee false = Ok chargeResult ->
  charged chargeResult = true ->
  runQuery c data sql = (calls, Ok (cursor, rows)) ->
  fetch c u request =
  (CallCharge fee false :: calls,
   Ok (mkResponse 200
         [ ("Content-Type", "application/json");
           ("Access-Control-Allow-Origin", "*") ]
         (Json
            (JObj
               [ ("result",
                  JObj
                    [ ("columns", JArr (map JStr (columnNames cursor)));
                      ("rows", JArr rows);
                      ("meta",
                        JObj
                          [ ("rows_read", JNum (rowsRead cursor));
                            ("rows_written", JNum (rowsWritten cursor));
                            ("charge_applied", JNum fee);
                            ("remaining_balance",
                              JNum (PrimFloat.sub (user_balance u) fee)) ])
                    ]) ])))).
Proof.
  intros Hroute (Htoken & Hd & Hs & Ht) Hv Hc Hn Hr.
  exact (stage_respond c u request Hroute Htoken Hd Hs Ht Hv Hc Hn Hr).
Qed.

(** C8.  When the charge has succeeded and the execution then throws,
    the response is 500 with the error's message, and the calls made
    are the one charge of the fee, the calls of the execution, and the
    log line: nothing after the charge touches the ledger. *)
Theorem failed_execution_keeps_the_fee
    (c : Collaborators) (u : User) (request : Request)
    (data sql : JSValue) (chargeResult : ChargeResult)
    (calls : list Event) (e : string) :
  isQueryShared request = true ->
  Parsed u request data sql ->
  isValid (validateReadOnlyQuery (callStack c) (parse c) sql) = true ->
  charge c fee false = Ok chargeResult ->
  charged chargeResult = true ->
  runQuery c data sql = (calls, Throw e) ->
  fetch c u request =
  (CallCharge fee false :: (calls ++ [ConsoleError e])%list,
   Ok (mkResponse 500 [ ("Content-Type", "application/json") ]
         (Json (JObj [ ("error", JStr "Query execution failed");
                       ("details", JStr e) ]))))
  /\ existsb isLedgerCall (calls ++ [ConsoleError e])%list = false.
Proof.
  intros Hroute (Htoken & Hd & Hs & Ht) Hv Hc Hn Hr. split.
  - exact (stage_execute_throws c u request Hroute Htoken Hd Hs Ht Hv Hc Hn Hr).
  - apply no_ledger_after. eapply runQuery_calls, Hr.
Qed.

(** C10.  In a 200 response of the query endpoint [charge_applied] is
    the constant 0.1 and [remaining_balance] is the balance the handler
    was given for the user minus 0.1.  The reply of the charge does not
    enter the response: any ledger whose charge succeeds gives the same
    calls and the same response (the stack, the parser and the storage
    client being the same), so the figure can differ from the balance
    that the ledger reports after the debit. *)
Theorem remaining_balance_from_snapshot
    (c : Collaborators) (u : User) (request : Request)
    (t : list Event) (response : Response) :
  isQueryShared request = true ->
  fetch c u request = (t, Ok response) ->
  status response = 200 ->
  metaField "charge_applied" response = JNum 0.1%float
  /\ metaField "remaining_balance" response
     = JNum (PrimFloat.sub (user_balance u) 0.1%float)
  /\ (forall c' chargeResult',
         callStack c' = callStack c ->
         parse c' = parse c ->
         createClient c' = createClient c ->
         charge c' fee false = Ok chargeResult' ->
         charged chargeResult' = true ->
         fetch c' u request = (t, Ok response))
  /\ (exists t0 response0 chargeResult0,
         fetch (Fixtures.world Fixtures.staleLedger Fixtures.countCursor)
               Fixtures.alice
               (Fixtures.post (Fixtures.sqlBody Fixtures.sqlCount))
         = (t0, Ok response0)
         /\ status response0 = 200
         /\ Fixtures.staleLedger fee false = Ok chargeResult0
         /\ metaField "remaining_balance" response0 = JNum 99.9%float
         /\ balance chargeResult0 = 49.9%float).
Proof.
  intros Hroute H H200. apply fetch_ends_inv in H; [|exact Hroute].
  destruct H as
    [ | | | | | |
    | | data sql cr calls cursor rows (Htoken & Hd & Hs & Ht) Hv Hc Hn Hr ];
    try discriminate H200.
  split; [reflexivity|]. split; [reflexivity|]. split.
  - intros c' cr' Hstack Hparse Hclient Hc' Hn'.
    apply (stage_respond c' u request Hroute Htoken Hd Hs Ht)
      with (chargeResult := cr').
    + now rewrite Hstack, Hparse.
    + exact Hc'.
    + exact Hn'.
    + now rewrite (runQuery_ext c c' data sql Hclient).
  - eexists _, _, _. repeat split.
Qed.

(** * The claims on sample requests *)

Import Fixtures.

(** C1 at [INSERT INTO t VALUES (1); DELETE FROM t]. *)
Lemma write_statement_rejected_witness :
  isValid (validateReadOnlyQuery sampleStack sampleParser
             (JStr sqlInsertDelete)) = false
  /\ exists reason,
       error (validateReadOnlyQuery sampleStack sampleParser
                (JStr sqlInsertDelete)) = Some reason
       /\ (forall st,
              checkNode sampleStack insertThenDelete initFlags = Ok st ->
              anyNode isDangerousCall insertThenDelete = false ->
              exists t, In t deniedTypes
                        /\ anyNode (hasType t) insertThenDelete = true
                        /\ reason = "Write operation not allowed: " ++ t)
       /\ (stackNeeded insertThenDelete <= sampleStack ->
           anyNode isUntypedCall insertThenDelete = false ->
           exists st, checkNode sampleStack insertThenDelete initFlags = Ok st)
       /\ (forall e,
              checkNode sampleStack insertThenDelete initFlags = Throw e ->
              reason = "SQL parsing error: " ++ e).
Proof.
  exact (@write_statement_rejected sampleStack sampleParser sqlInsertDelete
           insertThenDelete eq_refl eq_refl).
Defined.

(** C1 as stated fails on an INSERT followed by a SELECT of a long
    chain of additions: the insert is met, the walk goes on into the
    chain, the stack runs out, and the reason is the parsing-error text,
    which names no write operation. *)
Lemma write_reason_lost_on_deep_tree :
  chainParser longChain (JStr (sqlInsertChain longChain))
  = Ok (insertThenChain longChain)
  /\ distinctKeys (insertThenChain longChain) = true
  /\ anyNode isDeniedNode (insertThenChain longChain) = true
  /\ firstViolation (insertThenChain longChain)
     = Some "Write operation not allowed: insert_stmt"
  /\ validateReadOnlyQuery sampleStack (chainParser longChain)
       (JStr (sqlInsertChain longChain))
     = mkVerdict false
         (Some "SQL parsing error: Maximum call stack size exceeded")
  /\ mentions "Write operation"
       "SQL parsing error: Maximum call stack size exceeded" = false.
Proof. repeat split; vm_compute; reflexivity. Qed.

(** C3 on [SELECT LOAD_EXTENSION('x')].  The parser gives a call as a
    [func_call] node whose name is an identifier node; line 74 looks for
    the type [function_call] and a string name, so the list of
    dangerous functions is never consulted and the statement is
    allowed. *)
Lemma load_extension_call_is_allowed :
  sampleParser (JStr sqlLoadUpper) = Ok selectLoadUpper
  /\ distinctKeys selectLoadUpper = true
  /\ anyNode (namesFunction "load_extension") selectLoadUpper = true
  /\ anyNode (hasType "function_call") selectLoadUpper = false
  /\ validateReadOnlyQuery sampleStack sampleParser (JStr sqlLoadUpper)
     = mkVerdict true None.
Proof. repeat split. Qed.

(** C5 at [SELECT COUNT( * ) as total FROM sample_data]. *)
Lemma clean_statement_allowed_witness :
  validateReadOnlyQuery sampleStack sampleParser (JStr sqlCount)
  = mkVerdict true None.
Proof.
  exact (@clean_statement_allowed sampleStack sampleParser sqlCount
           selectCount eq_refl eq_refl eq_refl eq_refl
           (proj1 (Nat.leb_le (stackNeeded selectCount) sampleStack)
              eq_refl)).
Defined.

(** C5 as stated fails on a SELECT of a long chain of additions: the
    tree holds no denied node and no function call at all, the walk
    runs out of stack, and the [catch] block turns the [RangeError] into
    a rejection. *)
Lemma long_select_rejected :
  chainParser longChain (JStr (sqlChain longChain)) = Ok (chainSelect longChain)
  /\ distinctKeys (chainSelect longChain) = true
  /\ anyNode isDeniedNode (chainSelect longChain) = false
  /\ anyNode isDangerousCall (chainSelect longChain) = false
  /\ anyNode (hasType "function_call") (chainSelect longChain) = false
  /\ anyNode (hasType "func_call") (chainSelect longChain) = false
  /\ validateReadOnlyQuery sampleStack (chainParser longChain)
       (JStr (sqlChain longChain))
     = mkVerdict false
         (Some "SQL parsing error: Maximum call stack size exceeded").
Proof. repeat split; vm_compute; reflexivity. Qed.

(** C9 at [INSERT INTO t VALUES (1); DELETE FROM t]. *)
Lemma last_violation_reported_witness :
  mkFlags true "Write operation not allowed: delete_stmt"
  = record (violations insertThenDelete) initFlags
  /\ validateReadOnlyQuery sampleStack sampleParser (JStr sqlInsertDelete) =
     match lastViolation insertThenDelete with
     | Some reason => mkVerdict false (Some reason)
     | None => mkVerdict true None
     end
  /\ (forall room v rest st0,
         checkNode (S room) (JArr (v :: rest)) st0 =
         bindO (visit room v st0) (checkNode (S room) (JArr rest))).
Proof.
  exact (@last_violation_reported sampleStack sampleParser sqlInsertDelete
           insertThenDelete
           (mkFlags true "Write operation not allowed: delete_stmt")
           eq_refl eq_refl).
Defined.

(** C9 as stated fails on the same text: the first violation in
    traversal order is the insert, the walk goes on to the delete, and
    the verdict reports the delete. *)
Lemma later_violation_overwrites_first :
  sampleParser (JStr sqlInsertDelete) = Ok insertThenDelete
  /\ distinctKeys insertThenDelete = true
  /\ firstViolation insertThenDelete
     = Some "Write operation not allowed: insert_stmt"
  /\ checkNode sampleStack insertValues initFlags
     = Ok (mkFlags true "Write operation not allowed: insert_stmt")
  /\ checkNode sampleStack insertThenDelete initFlags
     = Ok (mkFlags true "Write operation not allowed: delete_stmt")
  /\ validateReadOnlyQuery sampleStack sampleParser (JStr sqlInsertDelete)
     = mkVerdict false (Some "Write operation not allowed: delete_stmt").
Proof. repeat split. Qed.

(** C2 at the counting query with a ledger that pays: the charge was
    made for a validated statement, first and once, and the executor
    ran after a charge that succeeded. *)
Lemma charge_after_validation_execute_after_charge_witness :
  (exists data sql rest,
      Parsed alice (post (sqlBody sqlCount)) data sql
      /\ isValid (validateReadOnlyQuery sampleStack sampleParser sql) = true
      /\ [ CallCharge fee false; CallCreateClient;
           CallExec (JStr sqlCount) []; CallRaw ]
         = CallCharge fee false :: rest
      /\ existsb isLedgerCall rest = false)
  /\ (exists chargeResult rest,
         payingLedger fee false = Ok chargeResult
         /\ charged chargeResult = true
         /\ [ CallCharge fee false; CallCreateClient;
              CallExec (JStr sqlCount) []; CallRaw ]
            = CallCharge fee false :: rest).
Proof.
  destruct (@charge_after_validation_execute_after_charge
              (world payingLedger countCursor) alice
              (post (sqlBody sqlCount))
              [ CallCharge fee false; CallCreateClient;
                CallExec (JStr sqlCount) []; CallRaw ]
              (successResponse alice countCursor [ JArr [ JNum 5%float ] ])
              eq_refl eq_refl)
    as (Hcharge & Hexec & _).
  split; [exact (Hcharge eq_refl) | exact (Hexec eq_refl)].
Defined.

(** C4 at [SELEC * FROM x]. *)
Lemma parse_failure_fails_closed_witness :
  validateReadOnlyQuery sampleStack sampleParser (JStr "SELEC * FROM x")
  = mkVerdict false
      (Some "SQL parsing error: Syntax Error: Unexpected input")
  /\ fetch (world payingLedger countCursor) alice
       (post (sqlBody "SELEC * FROM x"))
     = ([], Ok (errorResponse 400
                  [ ("error", JStr "Invalid query");
                    ("details",
                      JStr "SQL parsing error: Syntax Error: Unexpected input")
                  ])).
Proof.
  destruct (@parse_failure_fails_closed
              (world payingLedger countCursor) "SELEC * FROM x"
              "Syntax Error: Unexpected input" eq_refl) as [Hv Hreq].
  split; [exact Hv|].
  destruct (Hreq alice (post (sqlBody "SELEC * FROM x"))
              (JObj [ ("sql", JStr "SELEC * FROM x") ]) eq_refl eq_refl)
    as [_ Hresp].
  apply Hresp; [reflexivity | reflexivity | discriminate].
Defined.

(** C6 at a body with parameters and no [sql]. *)
Lemma missing_sql_is_bad_request_witness :
  fetch (world payingLedger countCursor) alice
    (post (Ok (JObj [ ("params", JArr [ JStr "electronics" ]) ])))
  = ([], Ok (mkResponse 400 [ ("Content-Type", "application/json") ]
               (Json (JObj [ ("error", JStr "SQL query is required") ])))).
Proof.
  destruct (@missing_sql_is_bad_request
              (world payingLedger countCursor) alice
              (post (Ok (JObj [ ("params", JArr [ JStr "electronics" ]) ])))
              eq_refl eq_refl) as [Hmissing _].
  exact (Hmissing _ _ eq_refl eq_refl eq_refl).
Defined.

(** C6 as stated fails on a body that is not JSON and on the body
    [null]: [request.json()] rejects, or reading [sql] of [null] throws,
    and the [catch] block answers 500. *)
Lemma malformed_body_is_server_error :
  isQueryShared (post (Throw "Unexpected end of JSON input")) = true
  /\ hasToken alice = true
  /\ fetch (world payingLedger countCursor) alice
       (post (Throw "Unexpected end of JSON input"))
     = ([ConsoleError "Unexpected end of JSON input"],
        Ok (mkResponse 500 [ ("Content-Type", "application/json") ]
              (Json (JObj [ ("error", JStr "Query execution failed");
                            ("details",
                              JStr "Unexpected end of JSON input") ]))))
  /\ status (match snd (fetch (world payingLedger countCursor) alice
                          (post (Ok JNull))) with
             | Ok response => response
             | Throw _ => welcomePage
             end) = 500.
Proof. repeat split. Qed.

(** C7 at the counting query over the five seeded rows, with a balance
    of 100. *)
Lemma success_envelope_witness :
  fetch (world payingLedger countCursor) alice (post (sqlBody sqlCount)) =
  ([ CallCharge fee false; CallCreateClient;
     CallExec (JStr sqlCount) []; CallRaw ],
   Ok (mkResponse 200
         [ ("Content-Type", "application/json");
           ("Access-Control-Allow-Origin", "*") ]
         (Json
            (JObj
               [ ("result",
                  JObj
                    [ ("columns", JArr [ JStr "total" ]);
                      ("rows", JArr [ JArr [ JNum 5%float ] ]);
                      ("meta",
                        JObj
                          [ ("rows_read", JNum 5%float);
                            ("rows_written", JNum 0%float);
                            ("charge_applied", JNum 0.1%float);
                            ("remaining_balance", JNum 99.9%float) ]) ])
               ])))).
Proof.
  exact (@success_envelope
           (world payingLedger countCursor) alice (post (sqlBody sqlCount))
           (JObj [ ("sql", JStr sqlCount) ]) (JStr sqlCount)
           (mkChargeResult true None 99.9%float)
           [ CallCreateClient; CallExec (JStr sqlCount) []; CallRaw ]
           countCursor [ JArr [ JNum 5%float ] ]
           eq_refl (conj eq_refl (conj eq_refl (conj eq_refl eq_refl)))
           eq_refl eq_refl eq_refl eq_refl).
Defined.

(** C8 at a query whose cursor fails after the charge. *)
Lemma failed_execution_keeps_the_fee_witness :
  fetch (world payingLedger failingCursor) alice (post (sqlBody sqlCount)) =
  ([ CallCharge fee false; CallCreateClient;
     CallExec (JStr sqlCount) []; CallRaw;
     ConsoleError "no such table: sample_data" ],
   Ok (mkResponse 500 [ ("Content-Type", "application/json") ]
         (Json (JObj [ ("error", JStr "Query execution failed");
                       ("details", JStr "no such table: sample_data") ]))))
  /\ existsb isLedgerCall
       [ CallCreateClient; CallExec (JStr sqlCount) []; CallRaw;
         ConsoleError "no such table: sample_data" ] = false.
Proof.
  exact (@failed_execution_keeps_the_fee
           (world payingLedger failingCursor) alice
           (post (sqlBody sqlCount))
           (JObj [ ("sql", JStr sqlCount) ]) (JStr sqlCount)
           (mkChargeResult true None 99.9%float)
           [ CallCreateClient; CallExec (JStr sqlCount) []; CallRaw ]
           "no such table: sample_data"
           eq_refl (conj eq_refl (conj eq_refl (conj eq_refl eq_refl)))
           eq_refl eq_refl eq_refl eq_refl).
Defined.

(** C10 at the counting query: the session holds 100, the ledger's own
    record is behind it. *)
Lemma remaining_balance_from_snapshot_witness :
  metaField "charge_applied"
    (successResponse alice countCursor [ JArr [ JNum 5%float ] ])
  = JNum 0.1%float
  /\ metaField "remaining_balance"
       (successResponse alice countCursor [ JArr [ JNum 5%float ] ])
     = JNum (PrimFloat.sub 100%float 0.1%float)
  /\ fetch (world staleLedger countCursor) alice (post (sqlBody sqlCount))
     = fetch (world payingLedger countCursor) alice (post (sqlBody sqlCount)).
Proof.
  destruct (@remaining_balance_from_snapshot
              (world payingLedger countCursor) alice
              (post (sqlBody sqlCount))
              [ CallCharge fee false; CallCreateClient;
                CallExec (JStr sqlCount) []; CallRaw ]
              (successResponse alice countCursor [ JArr [ JNum 5%float ] ])
              eq_refl eq_refl eq_refl)
    as (Hfee & Hrem & Hany & _).
  split; [exact Hfee|]. split; [exact Hrem|].
  exact (Hany (world staleLedger countCursor)
              (mkChargeResult true None 49.9%float)
              eq_refl eq_refl eq_refl eq_refl eq_refl).
Defined.

(** * Further facts about the validator *)

Import Variants.

Lemma anyNode_violation_false v :
  anyNode isViolation v = false ->
  anyNode isDeniedNode v = false /\ anyNode isDangerousCall v = false.
Proof.
  intros H. split.
  - destruct (anyNode isDeniedNode v) eqn:E; [|reflexivity].
    rewrite (anyNode_impl isDeniedNode isViolation v) in H;
      [discriminate| |exact E].
    intros props Hp. unfold isViolation. now rewrite Hp.
  - destruct (anyNode isDangerousCall v) eqn:E; [|reflexivity].
    rewrite (anyNode_impl isDangerousCall isViolation v) in H;
      [discriminate| |exact E].
    intros props Hp. unfold isViolation. rewrite Hp. apply orb_true_r.
Qed.

Lemma inspect_of_untyped props :
  isDeniedNode props = false ->
  isUntypedCall props = true ->
  inspect props = Raises notAFunction.
Proof.
  intros Hd Hu. unfold isUntypedCall, isNamedCall, hasType in Hu.
  apply andb_true_iff in Hu as [Hc Hn]. unfold inspect.
  destruct (deniedType (lookup "type" props)) as [t|] eqn:E.
  - assert (isDeniedNode props = true)
      by (apply isDeniedNode_deniedType; now exists t).
    congruence.
  - rewrite Hc. now destruct (lookup "name" props).
Qed.

Lemma forEach_untyped_throws elems :
  Forall (fun v => anyNode isViolation v = false ->
                   anyNode isUntypedCall v = true ->
                   forall st, throws (walk v st)) elems ->
  existsb (anyNode isViolation) elems = false ->
  existsb (anyNode isUntypedCall) elems = true ->
  forall st, throws (forEach walk elems st).
Proof.
  induction 1 as [|v rest Hv _ IH]; simpl; [discriminate|].
  intros Hno Hu st. apply orb_false_iff in Hno as [Hnv Hnr].
  destruct (walk v st) as [st1|e] eqn:E; [|now exists e].
  destruct (anyNode isUntypedCall v) eqn:Ev.
  - destruct (Hv Hnv eq_refl st) as (e & He). congruence.
  - now apply IH.
Qed.

(** Where nothing is a violation the walk prunes nothing, and then a
    call whose name is not a string is met. *)
Lemma untyped_call_throws v :
  anyNode isViolation v = false ->
  anyNode isUntypedCall v = true ->
  forall st, throws (walk v st).
Proof.
  induction v as [| | | | |elems IH|props IH] using tree_ind;
    try discriminate.
  - rewrite !anyNode_arr. intros Hno Hu st. rewrite walk_arr.
    now apply forEach_untyped_throws.
  - rewrite !anyNode_obj. intros Hno Hu st. rewrite walk_obj.
    apply orb_false_iff in Hno as [Hnp Hnr].
    apply orb_false_iff in Hnp as [Hnd Hng].
    destruct (isUntypedCall props) eqn:Eu.
    + rewrite (inspect_of_untyped _ Hnd Eu). now eexists.
    + rewrite (inspect_descend _ Hnd Hng Eu).
      apply forEach_untyped_throws; try assumption.
      now apply Forall_map.
Qed.

(** ** A tree deeper than the stack *)

Lemma existsb_none (A : Type) (p : A -> bool) l x :
  existsb p l = false -> In x l -> p x = false.
Proof.
  intros H Hin. destruct (p x) eqn:E; [|reflexivity].
  assert (existsb p l = true) by (apply existsb_exists; eauto).
  congruence.
Qed.

Lemma forEach_overflow (A : Type) (f : A -> Flags -> Outcome Flags)
    (need : A -> nat) xs room :
  Forall (fun x =>
            (forall st, f x st = Ok st \/ f x st = Throw stackOverflow)
            /\ (room < need x -> forall st, f x st = Throw stackOverflow))
         xs ->
  room < list_max (map need xs) ->
  forall st, forEach f xs st = Throw stackOverflow.
Proof.
  induction 1 as [|x rest [Hx1 Hx2] _ IH]; simpl; [lia|].
  intros H st. apply Nat.max_lt_iff in H as [H|H].
  - now rewrite Hx2.
  - destruct (Hx1 st) as [-> | ->]; [now apply IH | reflexivity].
Qed.

Lemma clean_walk v st :
  anyNode isViolation v = false ->
  anyNode isUntypedCall v = false ->
  walk v st = Ok st.
Proof.
  intros Hno Hu. destruct (anyNode_violation_false _ Hno) as [Hd Hg].
  now apply walk_clean.
Qed.

(** Where nothing is pruned and nothing throws, the walk reaches the
    deepest node, and a stack with less room than the tree needs runs
    out. *)
Lemma clean_overflow v :
  anyNode isViolation v = false ->
  anyNode isUntypedCall v = false ->
  forall stack,
    (stack < stackNeeded v ->
     forall st, checkNode stack v st = Throw stackOverflow)
    /\ (stack < valueNeeded v ->
        forall st, visit stack v st = Throw stackOverflow).
Proof.
  induction v as [| | | | |elems IH|props IH] using tree_ind;
    intros Hno Hu stack;
    try (split; [intros H st; replace stack with 0 by (simpl in H; lia);
                 reflexivity
                | intros H; simpl in H; lia]).
  - rewrite anyNode_arr in Hno, Hu. rewrite Forall_forall in IH. split.
    + intros H st. destruct stack as [|room]; [reflexivity|].
      rewrite checkNode_arr.
      apply (forEach_overflow (visit room) valueNeeded) with (room := room).
      * apply Forall_forall. intros e He.
        pose proof (existsb_none _ _ _ Hno He) as Hne.
        pose proof (existsb_none _ _ _ Hu He) as Hue. split.
        -- intro st'. rewrite <- (clean_walk e st' Hne Hue).
           apply bounded_walk.
        -- apply (IH e He Hne Hue room).
      * change (stackNeeded (JArr elems))
          with (S (list_max (map valueNeeded elems))) in H. lia.
    + intros H st.
      change (visit stack (JArr elems) st)
        with (forEach (checkNode stack) elems st).
      apply (forEach_overflow (checkNode stack) stackNeeded)
        with (room := stack); [|exact H].
      apply Forall_forall. intros e He.
      pose proof (existsb_none _ _ _ Hno He) as Hne.
      pose proof (existsb_none _ _ _ Hu He) as Hue. split.
      * intro st'. rewrite <- (clean_walk e st' Hne Hue).
        apply bounded_walk.
      * apply (IH e He Hne Hue stack).
  - cbn [anyNode] in Hno, Hu. rewrite Forall_forall in IH.
    apply orb_false_iff in Hno as [Hnp Hnr].
    apply orb_false_iff in Hu as [Hup Hur].
    apply orb_false_iff in Hnp as [Hnd Hng].
    assert (forall stack,
               stack < stackNeeded (JObj props) ->
               forall st, checkNode stack (JObj props) st
                          = Throw stackOverflow) as Hnode.
    { clear stack. intros stack H st.
      destruct stack as [|room]; [reflexivity|].
      rewrite checkNode_obj, (inspect_descend _ Hnd Hng Hup).
      apply (forEach_overflow (fun kv => visit room (snd kv))
               (fun kv => valueNeeded (snd kv))) with (room := room).
      - apply Forall_forall. intros kv Hkv.
        pose proof (existsb_none _ _ _ Hnr Hkv) as Hne.
        pose proof (existsb_none _ _ _ Hur Hkv) as Hue.
        cbv beta in Hne, Hue. split.
        + intro st'. rewrite <- (clean_walk (snd kv) st' Hne Hue).
          apply bounded_walk.
        + apply (IH kv Hkv Hne Hue room).
      - change (stackNeeded (JObj props))
          with (S (list_max (map (fun kv => valueNeeded (snd kv)) props)))
          in H.
        lia. }
    split; [apply Hnode | exact (Hnode stack)].
Qed.

(** X1.  The validator allows an input exactly when the parser returns
    a tree that holds, at any depth, no node of a denied kind, no node
    of type [function_call] whose name is a string naming a dangerous
    function, and no node of type [function_call] whose name is present
    and not a string, and the stack has room for the walk of the whole
    tree. *)
Theorem allowed_iff_clean_tree
    (stack : nat) (parse : JSValue -> Outcome JSValue) (sql : JSValue) :
  isValid (validateReadOnlyQuery stack parse sql) = true <->
  exists cst,
    parse sql = Ok cst
    /\ anyNode isDeniedNode cst = false
    /\ anyNode isDangerousCall cst = false
    /\ anyNode isUntypedCall cst = false
    /\ stackNeeded cst <= stack.
Proof.
  split.
  - destruct (parse sql) as [cst|e] eqn:Hp;
      [|unfold validateReadOnlyQuery; rewrite Hp; discriminate].
    rewrite (validate_of_walk _ _ _ Hp). intros Hv. exists cst.
    split; [reflexivity|].
    destruct (checkNode stack cst initFlags) as [st|e] eqn:E;
      [|discriminate Hv].
    destruct (hasNonReadOperation st) eqn:Hf; [discriminate Hv|].
    assert (anyNode isViolation cst = false) as Hno.
    { destruct (anyNode isViolation cst) eqn:Ev; [|reflexivity].
      pose proof (checkNode_flags stack _ Ev initFlags) as Hflag.
      rewrite E in Hflag. simpl in Hflag. congruence. }
    assert (anyNode isUntypedCall cst = false) as Hu.
    { destruct (anyNode isUntypedCall cst) eqn:Eu; [|reflexivity].
      destruct (untyped_call_throws _ Hno Eu initFlags) as (e & He).
      destruct (checkNode_cases stack cst initFlags) as [Hc|Hc];
        congruence. }
    destruct (anyNode_violation_false _ Hno) as [Hd Hg].
    repeat split; try assumption.
    destruct (Nat.le_gt_cases (stackNeeded cst) stack) as [Hs|Hs];
      [exact Hs|].
    rewrite (proj1 (clean_overflow cst Hno Hu stack) Hs) in E.
    discriminate E.
  - intros (cst & Hp & Hd & Hg & Hu & Hs).
    rewrite (validate_of_walk _ _ _ Hp), checkNode_clean;
      now try assumption.
Qed.

(** X2.  A verdict is either an acceptance without a reason, or a
    rejection whose reason has one of three shapes: a write operation
    with one of the eight denied kinds, a function with one of the four
    dangerous names, or a parsing error. *)
Theorem verdict_shapes
    (stack : nat) (parse : JSValue -> Outcome JSValue) (sql : JSValue) :
  validateReadOnlyQuery stack parse sql = mkVerdict true None
  \/ exists reason,
       validateReadOnlyQuery stack parse sql = mkVerdict false (Some reason)
       /\ ((exists t, In t deniedTypes
                      /\ reason = "Write operation not allowed: " ++ t)
           \/ (exists f, In f dangerousFunctions
                         /\ reason = "Function not allowed: " ++ f)
           \/ (exists e, reason = "SQL parsing error: " ++ e)).
Proof.
  destruct (parse sql) as [cst|e] eqn:Hp.
  - rewrite (validate_of_walk _ _ _ Hp).
    destruct (checkNode stack cst initFlags) as [st|e] eqn:E.
    + destruct (hasNonReadOperation st) eqn:Hf; [right|now left].
      exists (errorMessage st). split; [reflexivity|].
      destruct (walk_reason _ _ E Hf) as [_ Hin].
      destruct (violations_sound _ _ Hin)
        as [(t & Ht & _ & Hm)|(n & Hn & _ & Hm)]; eauto.
    + right. eexists. split; [reflexivity|]. eauto.
  - right. unfold validateReadOnlyQuery. rewrite Hp. simpl.
    eexists. split; [reflexivity|]. eauto.
Qed.

(** X3.  An exception of the walk is reported as a parsing error of the
    SQL text.  When the parser has returned a tree and the walk throws,
    the reason is the parsing-error text with the message thrown, and
    the violations met before are not reported.  The message is that of
    the exhausted call stack, or, at a function-call node whose name is
    not a string, that of the missing method. *)
Theorem walk_error_reported_as_parse_error
    (stack : nat) (parse : JSValue -> Outcome JSValue)
    (sql cst : JSValue) (e : string) :
  parse sql = Ok cst ->
  checkNode stack cst initFlags = Throw e ->
  validateReadOnlyQuery stack parse sql
  = mkVerdict false (Some ("SQL parsing error: " ++ e))
  /\ (e = "Maximum call stack size exceeded"
      \/ (e = "node.name.toLowerCase is not a function"
          /\ anyNode isUntypedCall cst = true)).
Proof.
  intros Hp Hw. rewrite (validate_of_walk _ _ _ Hp), Hw.
  split; [reflexivity|]. exact (checkNode_throws _ _ _ Hw).
Qed.

Lemma walk_error_reported_as_parse_error_witness :
  firstViolation (insertThenChain 16)
  = Some "Write operation not allowed: insert_stmt"
  /\ validateReadOnlyQuery 8 (chainParser 16) (JStr (sqlInsertChain 16))
     = mkVerdict false
         (Some "SQL parsing error: Maximum call stack size exceeded").
Proof.
  split; [reflexivity|].
  exact (proj1 (@walk_error_reported_as_parse_error
                  8 (chainParser 16) (JStr (sqlInsertChain 16))
                  (insertThenChain 16)
                  "Maximum call stack size exceeded" eq_refl eq_refl)).
Defined.

(** X13.  A tree with nothing to reject that is deeper than the stack
    is rejected all the same, as a parsing error with the message of
    the exhausted call stack. *)
Theorem deep_clean_tree_rejected
    (stack : nat) (parse : JSValue -> Outcome JSValue) (sql cst : JSValue) :
  parse sql = Ok cst ->
  anyNode isViolation cst = false ->
  anyNode isUntypedCall cst = false ->
  stack < stackNeeded cst ->
  validateReadOnlyQuery stack parse sql
  = mkVerdict false
      (Some "SQL parsing error: Maximum call stack size exceeded").
Proof.
  intros Hp Hno Hu Hs. rewrite (validate_of_walk _ _ _ Hp).
  now rewrite (proj1 (clean_overflow cst Hno Hu stack) Hs).
Qed.

Lemma deep_clean_tree_rejected_witness :
  validateReadOnlyQuery 8 (chainParser 16) (JStr (sqlChain 16))
  = mkVerdict false
      (Some "SQL parsing error: Maximum call stack size exceeded").
Proof.
  exact (@deep_clean_tree_rejected 8 (chainParser 16)
           (JStr (sqlChain 16)) (chainSelect 16)
           eq_refl eq_refl eq_refl
           (proj1 (Nat.ltb_lt 8 (stackNeeded (chainSelect 16))) eq_refl)).
Defined.

(** ** The case of a callee name *)

Lemma toLowerCase_empty a b :
  toLowerCase a = toLowerCase b -> String.eqb a "" = String.eqb b "".
Proof. destruct a, b; simpl; intros H; try discriminate H; reflexivity. Qed.

Lemma lookup_withName_other k n props :
  String.eqb k "name" = false ->
  lookup k (withName n props) = lookup k props.
Proof.
  intros Hk. induction props as [|[k' v] props IH]; [reflexivity|].
  unfold withName in *. cbn [map fst lookup].
  destruct (String.eqb k' "name") eqn:E; cbn [lookup fst].
  - apply String.eqb_eq in E. subst k'. rewrite Hk. exact IH.
  - destruct (String.eqb k k'); [reflexivity | exact IH].
Qed.

Lemma lookup_withName n props :
  lookup "name" (withName n props) =
  if existsb (fun kv => String.eqb (fst kv) "name") props
  then n else JUndefined.
Proof.
  induction props as [|[k v] props IH]; [reflexivity|].
  unfold withName in *. cbn [map fst lookup existsb].
  destruct (String.eqb k "name") eqn:E; cbn [lookup fst orb];
    rewrite String.eqb_sym, E; [reflexivity | exact IH].
Qed.

Lemma inspect_withName a b props :
  equalsIgnoreCase a b = true ->
  inspect (withName (JStr a) props) = inspect (withName (JStr b) props).
Proof.
  unfold equalsIgnoreCase. intros H. apply String.eqb_eq in H.
  unfold inspect.
  rewrite !(@lookup_withName_other "type" (JStr a) props) by reflexivity.
  rewrite !(@lookup_withName_other "type" (JStr b) props) by reflexivity.
  rewrite (lookup_withName (JStr a)), (lookup_withName (JStr b)).
  destruct (existsb (fun kv => String.eqb (fst kv) "name") props);
    [|reflexivity].
  cbn [truthy]. now rewrite H, (toLowerCase_empty _ _ H).
Qed.

Lemma forEach_withName room a b props st :
  forEach (fun kv => visit room (snd kv)) (withName (JStr a) props) st
  = forEach (fun kv => visit room (snd kv)) (withName (JStr b) props) st.
Proof.
  revert st. induction props as [|[k v] props IH]; intro st; [reflexivity|].
  unfold withName in *. cbn [map fst].
  destruct (String.eqb k "name"); cbn [snd forEach].
  - change (visit room (JStr a) st) with (Ok st).
    change (visit room (JStr b) st) with (Ok st). apply IH.
  - destruct (visit room v st); [apply IH | reflexivity].
Qed.

(** X4.  The case of the letters of a callee name plays no part: two
    nodes that differ only in the case of the string under [name] get
    the same flags, the same reason and the same exceptions. *)
Theorem callee_case_is_ignored
    (stack : nat) (a b : string) (props : list (string * JSValue))
    (st : Flags) :
  equalsIgnoreCase a b = true ->
  checkNode stack (JObj (withName (JStr a) props)) st
  = checkNode stack (JObj (withName (JStr b) props)) st.
Proof.
  intros H. destruct stack as [|room]; [reflexivity|].
  rewrite !checkNode_obj, (@inspect_withName a b props H).
  destruct (inspect (withName (JStr b) props)); try reflexivity.
  apply forEach_withName.
Qed.

Lemma callee_case_is_ignored_witness :
  checkNode sampleStack
    (JObj (withName (JStr "Load_Extension")
             [ ("type", JStr "function_call"); ("name", JStr "f");
               ("args", JArr [ JStr "x" ]) ])) initFlags
  = checkNode sampleStack
      (JObj (withName (JStr "LOAD_EXTENSION")
               [ ("type", JStr "function_call"); ("name", JStr "f");
                 ("args", JArr [ JStr "x" ]) ])) initFlags.
Proof.
  exact (@callee_case_is_ignored sampleStack
           "Load_Extension" "LOAD_EXTENSION"
           [ ("type", JStr "function_call"); ("name", JStr "f");
             ("args", JArr [ JStr "x" ]) ] initFlags eq_refl).
Defined.

(** * Further facts about the handler *)

Lemma off_route c u request :
  isQueryShared request = false ->
  fetch c u request = ([], Ok welcomePage).
Proof. intros H. unfold fetch. now rewrite H. Qed.

Lemma filter_none (A : Type) (p : A -> bool) l :
  existsb p l = false -> filter p l = [].
Proof.
  induction l as [|x l IH]; simpl; [reflexivity|].
  intros H. apply orb_false_iff in H as [-> H]. now apply IH.
Qed.

Lemma ledgerCalls_after calls e :
  existsb isLedgerCall calls = false ->
  ledgerCalls (CallCharge fee false :: (calls ++ [ConsoleError e])%list)
  = [CallCharge fee false].
Proof.
  intros H. unfold ledgerCalls. cbn [filter isLedgerCall]. f_equal.
  apply filter_none. now apply no_ledger_after.
Qed.

(** The one [exec] of lines 196-201 gets the [sql] it was given and the
    spread [params] of the body. *)
Lemma runQuery_exec c data sql calls r s ps :
  runQuery c data sql = (calls, r) ->
  In (CallExec s ps) calls ->
  s = sql /\ bindO (getProp data "params") spreadParams = Ok ps.
Proof.
  unfold runQuery.
  destruct (createClient c) as [client|e];
    [rewrite bind_call_ok|intros [= <- _] [H|[]]; discriminate H].
  destruct (bindO (getProp data "params") spreadParams) as [params|e];
    [rewrite bind_ok|intros [= <- _] [H|[]]; discriminate H].
  destruct (exec client sql params) as [cursor|e];
    [rewrite bind_call_ok|].
  - destruct (raw cursor) as [rows|e]; cbn; intros [= <- _];
      intros [H|[H|[H|[]]]]; try discriminate H;
      injection H as <- <-; now split.
  - cbn. intros [= <- _]. intros [H|[H|[]]]; try discriminate H.
    injection H as <- <-. now split.
Qed.

(** X5.  The handler answers every request and never throws.  The
    status is 200, 400, 401, 402 or 500; on the query endpoint the body
    is a JSON object with the JSON content type, and the header that
    opens the response to other origins is there exactly when the
    status is 200. *)
Theorem every_request_is_answered
    (c : Collaborators) (u : User) (request : Request) :
  exists t response,
    fetch c u request = (t, Ok response)
    /\ In (status response) [200; 400; 401; 402; 500]
    /\ (isQueryShared request = true ->
        In ("Content-Type", "application/json") (headers response)
        /\ (exists fields, body response = Json (JObj fields))
        /\ (In ("Access-Control-Allow-Origin", "*") (headers response)
            <-> status response = 200)).
Proof.
  destruct (isQueryShared request) eqn:Hroute.
  - destruct (fetch_ends c u request Hroute) as (t & response & H & He).
    exists t, response. split; [exact H|].
    destruct He; cbn; (split; [tauto|]); intros _;
      (split; [tauto|]); (split; [eauto|]);
      (split; [intros Hin | intros Hs]);
      first [ reflexivity
            | discriminate Hs
            | right; left; reflexivity
            | exfalso; destruct Hin as [Hin|Hin];
              [discriminate Hin | exact Hin] ].
  - exists [], welcomePage. split; [now apply off_route|].
    split; [now left | discriminate].
Qed.

(** X6.  A request reaches the ledger at most once, and then with the
    amount 0.1 and the second argument [false].  A request answered by
    400 or 401 has called nobody, and one answered by 402 has made the
    charge and nothing else. *)
Theorem at_most_one_charge
    (c : Collaborators) (u : User) (request : Request) :
  exists t response,
    fetch c u request = (t, Ok response)
    /\ (ledgerCalls t = [] \/ ledgerCalls t = [CallCharge 0.1%float false])
    /\ (status response = 400 \/ status response = 401 -> t = [])
    /\ (status response = 402 -> t = [CallCharge 0.1%float false]).
Proof.
  destruct (isQueryShared request) eqn:Hroute.
  - destruct (fetch_ends c u request Hroute) as (t & response & H & He).
    exists t, response. split; [exact H|].
    destruct He as
      [ | | | | | |
      | data sql cr calls e Hp Hv Hc Hn Hr
      | data sql cr calls cursor rows Hp Hv Hc Hn Hr ]; cbn;
      try (split; [tauto|]; split;
           [ intros [Hs|Hs]; first [reflexivity | discriminate Hs]
           | intros Hs; first [reflexivity | discriminate Hs] ]).
    + split; [right|split; [intros [Hs|Hs]|intros Hs]; discriminate Hs].
      apply ledgerCalls_after. eapply runQuery_calls, Hr.
    + split; [right|split; [intros [Hs|Hs]|intros Hs]; discriminate Hs].
      change (CallCharge fee false :: filter isLedgerCall calls
              = [CallCharge fee false]).
      f_equal. apply filter_none. eapply runQuery_calls, Hr.
  - exists [], welcomePage. split; [now apply off_route|].
    split; [now left|].
    split; [intros [Hs|Hs]|intros Hs]; discriminate Hs.
Qed.

(** X7.  Authentication comes first.  A request to the query endpoint
    whose user has no access token, or an empty one, is answered by 401
    "Authentication required" with no call, whatever its body. *)
Theorem unauthenticated_is_refused_first
    (c : Collaborators) (u : User) (request : Request) :
  isQueryShared request = true ->
  access_token u = None \/ access_token u = Some "" ->
  fetch c u request =
  ([], Ok (mkResponse 401 [ ("Content-Type", "application/json") ]
             (Json (JObj [ ("error", JStr "Authentication required") ])))).
Proof.
  intros Hroute Htoken. apply stage_auth; [exact Hroute|].
  unfold hasToken. now destruct Htoken as [-> | ->].
Qed.

Lemma unauthenticated_is_refused_first_witness :
  fetch (world payingLedger countCursor) anonymous
    (post (Throw "Unexpected end of JSON input"))
  = ([], Ok (mkResponse 401 [ ("Content-Type", "application/json") ]
               (Json (JObj [ ("error", JStr "Authentication required") ])))).
Proof.
  exact (@unauthenticated_is_refused_first
           (world payingLedger countCursor) anonymous
           (post (Throw "Unexpected end of JSON input"))
           eq_refl (or_introl eq_refl)).
Defined.

(** X8.  The query endpoint is the path [/query/shared] with the method
    [POST], both compared exactly.  Any other request gets the welcome
    page with status 200; nothing is validated, charged or run for it. *)
Theorem other_routes_get_the_welcome_page
    (c : Collaborators) (u : User) (request : Request) :
  pathname request <> "/query/shared" \/ method request <> "POST" ->
  fetch c u request = ([], Ok welcomePage).
Proof.
  intros H. apply off_route. unfold isQueryShared.
  apply andb_false_iff.
  destruct H as [H|H]; [left|right]; now apply String.eqb_neq.
Qed.

Lemma other_routes_get_the_welcome_page_witness :
  fetch (world payingLedger countCursor) alice
    (mkRequest "/query/shared/schema" "GET" (sqlBody sqlCount))
  = ([], Ok welcomePage)
  /\ fetch (world payingLedger countCursor) alice
       (mkRequest "/query/shared" "post" (sqlBody sqlCount))
     = ([], Ok welcomePage).
Proof.
  split.
  - apply (@other_routes_get_the_welcome_page
             (world payingLedger countCursor) alice
             (mkRequest "/query/shared/schema" "GET" (sqlBody sqlCount))).
    left. discriminate.
  - apply (@other_routes_get_the_welcome_page
             (world payingLedger countCursor) alice
             (mkRequest "/query/shared" "post" (sqlBody sqlCount))).
    right. discriminate.
Defined.

(** Spreading a string loses nothing: its code points, put together
    again, are the string. *)
Lemma codePoints_concat s : String.concat "" (codePoints s) = s.
Proof.
  induction s as [|c rest IH]; [reflexivity|].
  cbn [codePoints].
  destruct (codePoints rest) as [|[|c' tail] more];
    [ simpl in *; now rewrite <- IH
    | destruct more; simpl in *; rewrite <- IH; reflexivity
    | destruct (isContinuation c'); destruct more; simpl in *;
      rewrite <- IH; reflexivity ].
Qed.

(** A letter with an accent, two bytes in UTF-8, spreads into one bind
    value; two ASCII letters spread into two. *)
Lemma spread_by_code_point :
  spreadParams (JStr (String (ascii_of_nat 195)
                        (String (ascii_of_nat 169) "")))
  = Ok [ JStr (String (ascii_of_nat 195) (String (ascii_of_nat 169) "")) ]
  /\ spreadParams (JStr "ab") = Ok [ JStr "a"; JStr "b" ].
Proof. split; reflexivity. Qed.

(** X9.  What is run is what was validated: whenever the storage
    client's [exec] is called, its first argument is the [sql] of the
    request body, the validator has allowed that very value, and the
    bind values are the spread [params] of the body. *)
Theorem executes_what_was_validated
    (c : Collaborators) (u : User) (request : Request)
    (t : list Event) (response : Response)
    (s : JSValue) (ps : list JSValue) :
  fetch c u request = (t, Ok response) ->
  In (CallExec s ps) t ->
  exists data,
    json request = Ok data
    /\ getProp data "sql" = Ok s
    /\ isValid (validateReadOnlyQuery (callStack c) (parse c) s) = true
    /\ bindO (getProp data "params") spreadParams = Ok ps.
Proof.
  intros H Hin. destruct (isQueryShared request) eqn:Hroute.
  - apply fetch_ends_inv in H; [|exact Hroute].
    destruct H as
      [ | | | | | |
      | data sql cr calls e (_ & Hd & Hs & _) Hv Hc Hn Hr
      | data sql cr calls cursor rows (_ & Hd & Hs & _) Hv Hc Hn Hr ];
      try solve [simpl in Hin; intuition discriminate].
    + destruct Hin as [Hin|Hin]; [discriminate Hin|].
      apply in_app_or in Hin as [Hin|[Hin|[]]]; [|discriminate Hin].
      destruct (runQuery_exec _ _ _ _ _ Hr Hin) as [-> Hps]. eauto.
    + destruct Hin as [Hin|Hin]; [discriminate Hin|].
      destruct (runQuery_exec _ _ _ _ _ Hr Hin) as [-> Hps]. eauto.
  - rewrite (off_route c u request Hroute) in H.
    injection H as <- _. destruct Hin.
Qed.

Lemma executes_what_was_validated_witness :
  exists data,
    paramsBody sqlCount (JArr [ JStr "electronics" ]) = Ok data
    /\ getProp data "sql" = Ok (JStr sqlCount)
    /\ isValid (validateReadOnlyQuery sampleStack sampleParser (JStr sqlCount)) = true
    /\ bindO (getProp data "params") spreadParams
       = Ok [ JStr "electronics" ].
Proof.
  exact (@executes_what_was_validated
           (world payingLedger countCursor) alice
           (post (paramsBody sqlCount (JArr [ JStr "electronics" ])))
           [ CallCharge fee false; CallCreateClient;
             CallExec (JStr sqlCount) [ JStr "electronics" ]; CallRaw ]
           (successResponse alice countCursor [ JArr [ JNum 5%float ] ])
           (JStr sqlCount) [ JStr "electronics" ]
           eq_refl (or_intror (or_intror (or_introl eq_refl)))).
Defined.

(** X10.  Bind values that cannot be spread cost the fee.  When [params]
    is truthy and neither an array nor a string (a number, [true], an
    object), the request is validated and charged, the client is
    created, the spread throws, [exec] is never called, and the answer
    is 500. *)
Theorem unspreadable_params_are_charged
    (c : Collaborators) (u : User) (request : Request)
    (data sql params : JSValue) (chargeResult : ChargeResult)
    (client : Client) :
  isQueryShared request = true ->
  Parsed u request data sql ->
  isValid (validateReadOnlyQuery (callStack c) (parse c) sql) = true ->
  charge c fee false = Ok chargeResult ->
  charged chargeResult = true ->
  createClient c = Ok client ->
  getProp data "params" = Ok params ->
  spreadable params = false ->
  exists e,
    fetch c u request =
    ([CallCharge fee false; CallCreateClient; ConsoleError e],
     Ok (mkResponse 500 [ ("Content-Type", "application/json") ]
           (Json (JObj [ ("error", JStr "Query execution failed");
                         ("details", JStr e) ])))).
Proof.
  intros Hroute (Htoken & Hd & Hs & Ht) Hv Hc Hn Hclient Hparams Hbad.
  assert (exists e, spreadParams params = Throw e) as (e & He).
  { unfold spreadable in Hbad. apply orb_false_iff in Hbad as [Htr Hk].
    apply negb_false_iff in Htr. unfold spreadParams. rewrite Htr.
    destruct params; try discriminate Hk; eauto. }
  exists e.
  apply (stage_execute_throws c u request Hroute Htoken Hd Hs Ht Hv Hc Hn
           (calls := [CallCreateClient])).
  unfold runQuery. rewrite Hclient, bind_call_ok, Hparams. cbn [bindO].
  now rewrite He.
Qed.

Lemma unspreadable_params_are_charged_witness :
  exists e,
    fetch (world payingLedger countCursor) alice
      (post (paramsBody sqlCount (JNum 5%float)))
    = ([CallCharge fee false; CallCreateClient; ConsoleError e],
       Ok (mkResponse 500 [ ("Content-Type", "application/json") ]
             (Json (JObj [ ("error", JStr "Query execution failed");
                           ("details", JStr e) ])))).
Proof.
  exact (@unspreadable_params_are_charged
           (world payingLedger countCursor) alice
           (post (paramsBody sqlCount (JNum 5%float)))
           (JObj [ ("sql", JStr sqlCount); ("params", JNum 5%float) ])
           (JStr sqlCount) (JNum 5%float)
           (mkChargeResult true None 99.9%float)
           (mkClient (fun _ _ => Ok countCursor))
           eq_refl (conj eq_refl (conj eq_refl (conj eq_refl eq_refl)))
           eq_refl eq_refl eq_refl eq_refl eq_refl eq_refl).
Defined.

(** X11.  A ledger that throws is answered like a failed query: after a
    valid statement, when [charge] itself throws, the answer is 500
    "Query execution failed" with the ledger's message, and neither the
    client nor [exec] is called. *)
Theorem ledger_error_is_a_server_error
    (c : Collaborators) (u : User) (request : Request)
    (data sql : JSValue) (e : string) :
  isQueryShared request = true ->
  Parsed u request data sql ->
  isValid (validateReadOnlyQuery (callStack c) (parse c) sql) = true ->
  charge c fee false = Throw e ->
  fetch c u request =
  ([CallCharge 0.1%float false; ConsoleError e],
   Ok (mkResponse 500 [ ("Content-Type", "application/json") ]
         (Json (JObj [ ("error", JStr "Query execution failed");
                       ("details", JStr e) ])))).
Proof.
  intros Hroute (Htoken & Hd & Hs & Ht) Hv Hc.
  exact (stage_charge_throws c u request Hroute Htoken Hd Hs Ht Hv Hc).
Qed.

Lemma ledger_error_is_a_server_error_witness :
  fetch (world brokenLedger countCursor) alice (post (sqlBody sqlCount)) =
  ([CallCharge 0.1%float false; ConsoleError "Ledger unavailable"],
   Ok (mkResponse 500 [ ("Content-Type", "application/json") ]
         (Json (JObj [ ("error", JStr "Query execution failed");
                       ("details", JStr "Ledger unavailable") ])))).
Proof.
  exact (@ledger_error_is_a_server_error
           (world brokenLedger countCursor) alice (post (sqlBody sqlCount))
           (JObj [ ("sql", JStr sqlCount) ]) (JStr sqlCount)
           "Ledger unavailable"
           eq_refl (conj eq_refl (conj eq_refl (conj eq_refl eq_refl)))
           eq_refl eq_refl).
Defined.

(** X12.  A body without [params], or with a falsy one, binds nothing:
    once the statement is validated and charged and the client is
    created, [exec] is called with the [sql] of the body and no bind
    value. *)
Theorem missing_params_bind_nothing
    (c : Collaborators) (u : User) (request : Request)
    (data sql params : JSValue) (chargeResult : ChargeResult)
    (client : Client) :
  isQueryShared request = true ->
  Parsed u request data sql ->
  isValid (validateReadOnlyQuery (callStack c) (parse c) sql) = true ->
  charge c fee false = Ok chargeResult ->
  charged chargeResult = true ->
  createClient c = Ok client ->
  getProp data "params" = Ok params ->
  truthy params = false ->
  exists rest,
    fst (fetch c u request)
    = CallCharge fee false :: CallCreateClient :: CallExec sql [] :: rest.
Proof.
  intros Hroute (Htoken & Hd & Hs & Ht) Hv Hc Hn Hclient Hparams Hfalsy.
  assert (exists rest r,
             runQuery c data sql
             = (CallCreateClient :: CallExec sql [] :: rest, r))
    as (rest & r & Hr).
  { unfold runQuery. rewrite Hclient, bind_call_ok, Hparams. cbn [bindO].
    unfold spreadParams. rewrite Hfalsy, bind_ok.
    destruct (exec client sql []) as [cursor|e];
      [rewrite bind_call_ok|cbn; eauto].
    destruct (raw cursor) as [rows|e]; cbn; eauto. }
  destruct r as [[cursor rows]|e].
  - rewrite (stage_respond c u request Hroute Htoken Hd Hs Ht Hv Hc Hn Hr).
    cbn. eauto.
  - rewrite (stage_execute_throws c u request Hroute Htoken Hd Hs Ht Hv
               Hc Hn Hr).
    cbn. eauto.
Qed.

Lemma missing_params_bind_nothing_witness :
  exists rest,
    fst (fetch (world payingLedger countCursor) alice
           (post (sqlBody sqlCount)))
    = CallCharge fee false :: CallCreateClient
      :: CallExec (JStr sqlCount) [] :: rest.
Proof.
  exact (@missing_params_bind_nothing
           (world payingLedger countCursor) alice (post (sqlBody sqlCount))
           (JObj [ ("sql", JStr sqlCount) ]) (JStr sqlCount) JUndefined
           (mkChargeResult true None 99.9%float)
           (mkClient (fun _ _ => Ok countCursor))
           eq_refl (conj eq_refl (conj eq_refl (conj eq_refl eq_refl)))
           eq_refl eq_refl eq_refl eq_refl eq_refl eq_refl).
Defined.
